(** * Record validation in the space-station exercises

    A shallow embedding of the three modules [ex0/space_station.py],
    [ex1/alien_contact.py] and [ex2/space_crew.py].

    Each module declares record classes whose fields carry [Field(...)]
    constraints, and two of them attach an "after" model validator made of
    a sequence of [if ...: raise ValueError(...)] statements.  Building an
    instance runs the field checks of every field, in declaration order,
    gathering every failure; only when none failed does the model validator
    run, and its first [raise] ends the run with a single entry.

    Modelling choices.
    - A Python [int] is a [Z]; a finite [float] is the rational it denotes
      ([Q], compared with [Qle_bool]); a [str] is a [string] whose elements
      stand for its characters; [datetime] values are taken as already
      built, so the keyword arguments are the well-typed ones.
    - A keyword argument that may be left out is an [option].
    - A crew element is given by its own keyword arguments; a freshly built
      [CrewMember] instance carries exactly the values it was built from. *)

From Stdlib Require Import ZArith QArith String List Bool Lia DecimalString.
Import ListNotations.

Open Scope string_scope.
Open Scope Z_scope.

(** ** Error reports *)

(** One step of the path that leads to the offending value. *)
Inductive loc_item : Type :=
| Key (field : string)
| Idx (i : nat).

(** The kinds of entries an error report can hold.  [value_error] is what a
    [ValueError] raised inside a model validator becomes; it carries the
    text given to the exception. *)
Inductive error_type : Type :=
| missing
| string_too_short
| string_too_long
| greater_than_equal
| less_than_equal
| too_short
| too_long
| value_error (msg : string).

Record violation : Type := Violation {
  v_loc : list loc_item;
  v_type : error_type
}.

Inductive result (A : Type) : Type :=
| Ok (a : A)
| Error (report : list violation).

Arguments Ok {A} a.
Arguments Error {A} report.

Definition errors_of {A : Type} (r : result A) : list violation :=
  match r with
  | Ok _ => []
  | Error report => report
  end.

Definition is_ok {A : Type} (r : result A) : bool :=
  match r with
  | Ok _ => true
  | Error _ => false
  end.

(** Failures of the fields are gathered, none hides another. *)
Definition collect {A B : Type} (f : result (A -> B)) (x : result A)
  : result B :=
  match f, x with
  | Ok g, Ok a => Ok (g a)
  | Ok _, Error e => Error e
  | Error e, Ok _ => Error e
  | Error e1, Error e2 => Error (e1 ++ e2)
  end.

Notation "f <*> x" := (collect f x) (at level 61, left associativity).

Definition with_outer_location (l : loc_item) (v : violation) : violation :=
  {| v_loc := l :: v_loc v; v_type := v_type v |}.

Definition at_loc {A : Type} (l : loc_item) (r : result A) : result A :=
  match r with
  | Ok a => Ok a
  | Error report => Error (map (with_outer_location l) report)
  end.

Definition fail {A : Type} (t : error_type) : result A :=
  Error [ {| v_loc := []; v_type := t |} ].

(** The locations named by the report of a result, in order. *)
Definition locs {A : Type} (r : result A) : list (list loc_item) :=
  map v_loc (errors_of r).

(** ** Field constraints *)

(** [len(s)] of a [str]. *)
Definition len (s : string) : Z := Z.of_nat (String.length s).

(** [str] with optional [min_length] and [max_length]. *)
Definition str_constrained (min_length max_length : option Z) (s : string)
  : result string :=
  match min_length with
  | Some lo =>
      if len s <? lo then fail string_too_short
      else match max_length with
           | Some hi => if hi <? len s then fail string_too_long else Ok s
           | None => Ok s
           end
  | None =>
      match max_length with
      | Some hi => if hi <? len s then fail string_too_long else Ok s
      | None => Ok s
      end
  end.

(** [int] with [ge] and [le]. *)
Definition int_constrained (ge le : Z) (v : Z) : result Z :=
  if v <? ge then fail greater_than_equal
  else if le <? v then fail less_than_equal
  else Ok v.

Definition Qlt_bool (x y : Q) : bool := negb (Qle_bool y x).

(** [float] with [ge] and [le]. *)
Definition float_constrained (ge le : Q) (v : Q) : result Q :=
  if Qlt_bool v ge then fail greater_than_equal
  else if Qlt_bool le v then fail less_than_equal
  else Ok v.

(** A field without constraints of its own. *)
Definition any {A : Type} (v : A) : result A := Ok v.

(** A field without default: leaving it out is a failure of that field. *)
Definition required {A B : Type} (field : string) (validator : A -> result B)
  (v : option A) : result B :=
  at_loc (Key field)
    match v with
    | None => fail missing
    | Some a => validator a
    end.

(** A field with a default: the default is taken as it is. *)
Definition defaulted {A : Type} (field : string) (default : A)
  (validator : A -> result A) (v : option A) : result A :=
  at_loc (Key field)
    match v with
    | None => Ok default
    | Some a => validator a
    end.

(** [Optional[T]] with default [None]; [None] itself is accepted. *)
Definition optional {A : Type} (field : string) (validator : A -> result A)
  (v : option A) : result (option A) :=
  at_loc (Key field)
    match v with
    | None => Ok None
    | Some a => Ok Some <*> validator a
    end.

(** ** Model validators *)

(** The body of a model validator either returns the instance or raises a
    [ValueError] with a message. *)
Inductive except (A : Type) : Type :=
| Return (a : A)
| Raise (msg : string).

Arguments Return {A} a.
Arguments Raise {A} msg.

Definition bind {A B : Type} (x : except A) (k : A -> except B) : except B :=
  match x with
  | Return a => k a
  | Raise msg => Raise msg
  end.

(** One statement after another; a raise ends the run. *)
Notation "s ;; k" := (bind s (fun _ => k))
  (at level 100, k at level 200, right associativity, only parsing).

(** [if c: raise ValueError(msg)]. *)
Definition raise_if (c : bool) (msg : string) : except unit :=
  if c then Raise msg else Return tt.

Notation "'when' c 'raise' msg" := (raise_if c msg)
  (at level 99, c at level 98, msg at level 98, only parsing).

(** [@model_validator(mode="after")]: the body runs on the instance built
    from the fields, and only when every field passed. *)
Definition model_validator_after {A : Type} (body : A -> except A)
  (r : result A) : result A :=
  match r with
  | Error report => Error report
  | Ok self =>
      match body self with
      | Return self' => Ok self'
      | Raise msg => fail (value_error msg)
      end
  end.

(** ** The validator body as a list of guarded raises

    An "after" validator of these modules is a straight sequence of
    [if fires(self): raise ValueError(text)] statements followed by
    [return self].  The sequence is kept as data, in the order in which the
    statements are written, and run one statement at a time. *)

Record guard (A : Type) : Type := Guard {
  fires : A -> bool;
  text : string
}.

Arguments Guard {A} fires text.
Arguments fires {A} g self.
Arguments text {A} g.

Inductive config (A : Type) : Type :=
| Running (pending : list (guard A))
| Raised (msg : string)
| Returned.

Arguments Running {A} pending.
Arguments Raised {A} msg.
Arguments Returned {A}.

Inductive step {A : Type} (self : A) : config A -> config A -> Prop :=
| step_raise g rest :
    fires g self = true ->
    step self (Running (g :: rest)) (Raised (text g))
| step_skip g rest :
    fires g self = false ->
    step self (Running (g :: rest)) (Running rest)
| step_return :
    step self (Running []) Returned.

Inductive steps {A : Type} (self : A) : config A -> config A -> Prop :=
| steps_refl c : steps self c c
| steps_step c1 c2 c3 : step self c1 c2 -> steps self c2 c3 -> steps self c1 c3.

(** The run of the statements as a function. *)
Fixpoint exec {A : Type} (gs : list (guard A)) (self : A) : except A :=
  match gs with
  | [] => Return self
  | g :: rest => if fires g self then Raise (text g) else exec rest self
  end.

Definition outcome {A : Type} (r : except A) : config A :=
  match r with
  | Return _ => Returned
  | Raise msg => Raised msg
  end.

Definition final {A : Type} (c : config A) : bool :=
  match c with
  | Running _ => false
  | Raised _ | Returned => true
  end.

(** A record class: how its instance is built from the keyword arguments,
    and the statements of its "after" validator (none when the class has no
    validator). *)
Record model (K A : Type) : Type := Model {
  fields : K -> result A;
  after : list (guard A)
}.

Arguments Model {K A} fields after.
Arguments fields {K A} m kw.
Arguments after {K A} m.

(** One construction of an instance, as a relation between the keyword
    arguments and the outcome. *)
Inductive constructs {K A : Type} (m : model K A) (kw : K)
  : result A -> Prop :=
| constructs_field_errors report :
    fields m kw = Error report ->
    constructs m kw (Error report)
| constructs_raise self msg :
    fields m kw = Ok self ->
    steps self (Running (after m)) (Raised msg) ->
    constructs m kw (fail (value_error msg))
| constructs_return self :
    fields m kw = Ok self ->
    steps self (Running (after m)) Returned ->
    constructs m kw (Ok self).

(** What a construction yields, from its two phases. *)
Definition construct {K A : Type} (m : model K A) (kw : K) : result A :=
  model_validator_after (exec (after m)) (fields m kw).

(** The guards that fire on an instance, in the order of the statements. *)
Definition fired {A : Type} (gs : list (guard A)) (self : A)
  : list (guard A) :=
  filter (fun g => fires g self) gs.

(** ** Offending fields, after the table of constraints

    A field offends when it is required and absent, or present with a value
    outside what its constraint allows: [min <= length <= max] for a text,
    [min <= value <= max] for a number, [min <= count <= max] for a list. *)

Definition length_within (lo hi : Z) (s : string) : bool :=
  (lo <=? len s) && (len s <=? hi).

Definition length_at_most (hi : Z) (s : string) : bool := len s <=? hi.

Definition int_within (lo hi : Z) (v : Z) : bool := (lo <=? v) && (v <=? hi).

Definition float_within (lo hi : Q) (v : Q) : bool :=
  Qle_bool lo v && Qle_bool v hi.

Definition size_within {A : Type} (lo hi : Z) (l : list A) : bool :=
  (lo <=? Z.of_nat (length l)) && (Z.of_nat (length l) <=? hi).

Definition unconstrained {A : Type} (v : A) : bool := true.

Definition path : Type := list loc_item.

(** The field itself, when [b] holds. *)
Definition here (b : bool) : list path := if b then [[]] else [].

Definition offends_required {A : Type} (satisfied : A -> bool) (v : option A)
  : list path :=
  match v with
  | None => here true
  | Some a => here (negb (satisfied a))
  end.

Definition offends_optional {A : Type} (satisfied : A -> bool) (v : option A)
  : list path :=
  match v with
  | None => here false
  | Some a => here (negb (satisfied a))
  end.

(** Paths gathered under their fields or indices, in the order given. *)
Definition under (entries : list (loc_item * list path)) : list path :=
  flat_map (fun e => map (cons (fst e)) (snd e)) entries.

Definition indexed {A : Type} (i : nat) (l : list A) : list (loc_item * A) :=
  combine (map Idx (seq i (length l))) l.

Record datetime : Type := Datetime {
  year : Z; month : Z; day : Z; hour : Z; minute : Z; second : Z
}.

(** ** Shape of a report *)

(** The entry kinds that field checks produce. *)
Definition field_kind (t : error_type) : bool :=
  match t with
  | value_error _ => false
  | _ => true
  end.

(** A result of field checks: when it is a failure, its report is not
    empty and holds entries of field checks only. *)
Definition field_result {A : Type} (r : result A) : Prop :=
  match r with
  | Ok _ => True
  | Error report =>
      report <> [] /\ Forall (fun v => field_kind (v_type v) = true) report
  end.

(** ** Printing

    [print] writes one line; a function that prints is the list of the
    lines it writes, in order.  An [int] inside an f-string is written in
    decimal; how a [float] is written is left to [repr], a parameter of the
    printing functions. *)

Definition str_int (n : Z) : string := NilZero.string_of_int (Z.to_int n).

Definition str_bool (b : bool) : string := if b then "True" else "False".

(** ** ex0: space_station.py *)

Module space_station.

Record SpaceStation : Type := Build_SpaceStation {
  station_id : string;
  name : string;
  crew_size : Z;
  power_level : Q;
  oxygen_level : Q;
  last_maintenance : datetime;
  is_operational : bool;
  notes : option string
}.

(** The keyword arguments given to [SpaceStation(...)]. *)
Record Kwargs : Type := Build_Kwargs {
  kw_station_id : option string;
  kw_name : option string;
  kw_crew_size : option Z;
  kw_power_level : option Q;
  kw_oxygen_level : option Q;
  kw_last_maintenance : option datetime;
  kw_is_operational : option bool;
  kw_notes : option string
}.

Definition validate (kw : Kwargs) : result SpaceStation :=
  Ok Build_SpaceStation
  <*> required "station_id" (str_constrained (Some 3) (Some 10)) (kw_station_id kw)
  <*> required "name" (str_constrained (Some 1) (Some 50)) (kw_name kw)
  <*> required "crew_size" (int_constrained 1 20) (kw_crew_size kw)
  <*> required "power_level" (float_constrained 0 100) (kw_power_level kw)
  <*> required "oxygen_level" (float_constrained 0 100) (kw_oxygen_level kw)
  <*> required "last_maintenance" any (kw_last_maintenance kw)
  <*> defaulted "is_operational" true any (kw_is_operational kw)
  <*> optional "notes" (str_constrained None (Some 200)) (kw_notes kw).

Definition with_station_id (v : option string) (kw : Kwargs) : Kwargs :=
  {| kw_station_id := v;
     kw_name := kw_name kw;
     kw_crew_size := kw_crew_size kw;
     kw_power_level := kw_power_level kw;
     kw_oxygen_level := kw_oxygen_level kw;
     kw_last_maintenance := kw_last_maintenance kw;
     kw_is_operational := kw_is_operational kw;
     kw_notes := kw_notes kw |}.

(** Keyword arguments with one of them replaced. *)
Definition with_crew_size (v : option Z) (kw : Kwargs) : Kwargs :=
  {| kw_station_id := kw_station_id kw;
     kw_name := kw_name kw;
     kw_crew_size := v;
     kw_power_level := kw_power_level kw;
     kw_oxygen_level := kw_oxygen_level kw;
     kw_last_maintenance := kw_last_maintenance kw;
     kw_is_operational := kw_is_operational kw;
     kw_notes := kw_notes kw |}.

Definition with_power_level (v : option Q) (kw : Kwargs) : Kwargs :=
  {| kw_station_id := kw_station_id kw;
     kw_name := kw_name kw;
     kw_crew_size := kw_crew_size kw;
     kw_power_level := v;
     kw_oxygen_level := kw_oxygen_level kw;
     kw_last_maintenance := kw_last_maintenance kw;
     kw_is_operational := kw_is_operational kw;
     kw_notes := kw_notes kw |}.

(** The class sets no configuration, so it is an ordinary, unfrozen model:
    its attributes are read with [getattr] and assigned with [setattr], and
    an assignment stores the value without running any check. *)
Inductive attribute : Type -> Type :=
| a_station_id : attribute string
| a_name : attribute string
| a_crew_size : attribute Z
| a_power_level : attribute Q
| a_oxygen_level : attribute Q
| a_last_maintenance : attribute datetime
| a_is_operational : attribute bool
| a_notes : attribute (option string).

Definition getattr {T : Type} (a : attribute T) (self : SpaceStation) : T :=
  match a in attribute T return T with
  | a_station_id => station_id self
  | a_name => name self
  | a_crew_size => crew_size self
  | a_power_level => power_level self
  | a_oxygen_level => oxygen_level self
  | a_last_maintenance => last_maintenance self
  | a_is_operational => is_operational self
  | a_notes => notes self
  end.

Definition setattr {T : Type} (a : attribute T) (v : T) (self : SpaceStation)
  : SpaceStation :=
  match a in attribute T return T -> SpaceStation with
  | a_station_id => fun v =>
      Build_SpaceStation v (name self) (crew_size self) (power_level self)
        (oxygen_level self) (last_maintenance self) (is_operational self)
        (notes self)
  | a_name => fun v =>
      Build_SpaceStation (station_id self) v (crew_size self)
        (power_level self) (oxygen_level self) (last_maintenance self)
        (is_operational self) (notes self)
  | a_crew_size => fun v =>
      Build_SpaceStation (station_id self) (name self) v (power_level self)
        (oxygen_level self) (last_maintenance self) (is_operational self)
        (notes self)
  | a_power_level => fun v =>
      Build_SpaceStation (station_id self) (name self) (crew_size self) v
        (oxygen_level self) (last_maintenance self) (is_operational self)
        (notes self)
  | a_oxygen_level => fun v =>
      Build_SpaceStation (station_id self) (name self) (crew_size self)
        (power_level self) v (last_maintenance self) (is_operational self)
        (notes self)
  | a_last_maintenance => fun v =>
      Build_SpaceStation (station_id self) (name self) (crew_size self)
        (power_level self) (oxygen_level self) v (is_operational self)
        (notes self)
  | a_is_operational => fun v =>
      Build_SpaceStation (station_id self) (name self) (crew_size self)
        (power_level self) (oxygen_level self) (last_maintenance self) v
        (notes self)
  | a_notes => fun v =>
      Build_SpaceStation (station_id self) (name self) (crew_size self)
        (power_level self) (oxygen_level self) (last_maintenance self)
        (is_operational self) v
  end v.

(** The class has no "after" validator. *)
Definition SpaceStation_model : model Kwargs SpaceStation :=
  Model validate [].

(** The offending fields of the keyword arguments, in declaration order. *)
Definition offending (kw : Kwargs) : list path :=
  under
    [ (Key "station_id", offends_required (length_within 3 10) (kw_station_id kw));
      (Key "name", offends_required (length_within 1 50) (kw_name kw));
      (Key "crew_size", offends_required (int_within 1 20) (kw_crew_size kw));
      (Key "power_level", offends_required (float_within 0 100) (kw_power_level kw));
      (Key "oxygen_level", offends_required (float_within 0 100) (kw_oxygen_level kw));
      (Key "last_maintenance", offends_required unconstrained (kw_last_maintenance kw));
      (Key "is_operational", offends_optional unconstrained (kw_is_operational kw));
      (Key "notes", offends_optional (length_at_most 200) (kw_notes kw)) ].


End space_station.

(** ** ex1: alien_contact.py *)

Module alien_contact.

Inductive ContactType : Type := radio | visual | physical | telepathic.

Definition ContactType_eqb (a b : ContactType) : bool :=
  match a, b with
  | radio, radio | visual, visual
  | physical, physical | telepathic, telepathic => true
  | _, _ => false
  end.

Record AlienContact : Type := Build_AlienContact {
  contact_id : string;
  timestamp : datetime;
  location : string;
  contact_type : ContactType;
  signal_strength : Q;
  duration_minutes : Z;
  witness_count : Z;
  message_received : option string;
  is_verified : bool
}.

Record Kwargs : Type := Build_Kwargs {
  kw_contact_id : option string;
  kw_timestamp : option datetime;
  kw_location : option string;
  kw_contact_type : option ContactType;
  kw_signal_strength : option Q;
  kw_duration_minutes : option Z;
  kw_witness_count : option Z;
  kw_message_received : option string;
  kw_is_verified : option bool
}.

Definition validate_fields (kw : Kwargs) : result AlienContact :=
  Ok Build_AlienContact
  <*> required "contact_id" (str_constrained (Some 5) (Some 15)) (kw_contact_id kw)
  <*> required "timestamp" any (kw_timestamp kw)
  <*> required "location" (str_constrained (Some 3) (Some 100)) (kw_location kw)
  <*> required "contact_type" any (kw_contact_type kw)
  <*> required "signal_strength" (float_constrained 0 10) (kw_signal_strength kw)
  <*> required "duration_minutes" (int_constrained 1 1440) (kw_duration_minutes kw)
  <*> required "witness_count" (int_constrained 1 100) (kw_witness_count kw)
  <*> optional "message_received" (str_constrained None (Some 500)) (kw_message_received kw)
  <*> defaulted "is_verified" false any (kw_is_verified kw).

(** [s.startswith(p)]. *)
Definition startswith (s p : string) : bool := String.prefix p s.

(** Truth value of an [Optional[str]]: [None] and the empty text are false. *)
Definition truthy (v : option string) : bool :=
  match v with
  | None => false
  | Some EmptyString => false
  | Some (String _ _) => true
  end.

Definition validate_business_rules (self : AlienContact)
  : except AlienContact :=
  (when negb (startswith (contact_id self) "AC")
   raise "Contact ID must start with 'AC' (Alien Contact)") ;;
  (when ContactType_eqb (contact_type self) physical
        && negb (is_verified self)
   raise "Physical contact reports must be verified") ;;
  (when ContactType_eqb (contact_type self) telepathic
        && (witness_count self <? 3)
   raise "Telepathic contact requires at least 3 witnesses") ;;
  (when Qlt_bool 7 (signal_strength self)
        && negb (truthy (message_received self))
   raise "Strong signals (> 7.0) should include a received message") ;;
  Return self.

Definition validate (kw : Kwargs) : result AlienContact :=
  model_validator_after validate_business_rules (validate_fields kw).

(** The class sets no configuration: attributes are read with [getattr] and
    assigned with [setattr], and an assignment runs no check. *)
Inductive attribute : Type -> Type :=
| a_contact_id : attribute string
| a_timestamp : attribute datetime
| a_location : attribute string
| a_contact_type : attribute ContactType
| a_signal_strength : attribute Q
| a_duration_minutes : attribute Z
| a_witness_count : attribute Z
| a_message_received : attribute (option string)
| a_is_verified : attribute bool.

Definition getattr {T : Type} (a : attribute T) (self : AlienContact) : T :=
  match a in attribute T return T with
  | a_contact_id => contact_id self
  | a_timestamp => timestamp self
  | a_location => location self
  | a_contact_type => contact_type self
  | a_signal_strength => signal_strength self
  | a_duration_minutes => duration_minutes self
  | a_witness_count => witness_count self
  | a_message_received => message_received self
  | a_is_verified => is_verified self
  end.

Definition setattr {T : Type} (a : attribute T) (v : T) (self : AlienContact)
  : AlienContact :=
  match a in attribute T return T -> AlienContact with
  | a_contact_id => fun v =>
      Build_AlienContact v (timestamp self) (location self)
        (contact_type self) (signal_strength self) (duration_minutes self)
        (witness_count self) (message_received self) (is_verified self)
  | a_timestamp => fun v =>
      Build_AlienContact (contact_id self) v (location self)
        (contact_type self) (signal_strength self) (duration_minutes self)
        (witness_count self) (message_received self) (is_verified self)
  | a_location => fun v =>
      Build_AlienContact (contact_id self) (timestamp self) v
        (contact_type self) (signal_strength self) (duration_minutes self)
        (witness_count self) (message_received self) (is_verified self)
  | a_contact_type => fun v =>
      Build_AlienContact (contact_id self) (timestamp self) (location self) v
        (signal_strength self) (duration_minutes self) (witness_count self)
        (message_received self) (is_verified self)
  | a_signal_strength => fun v =>
      Build_AlienContact (contact_id self) (timestamp self) (location self)
        (contact_type self) v (duration_minutes self) (witness_count self)
        (message_received self) (is_verified self)
  | a_duration_minutes => fun v =>
      Build_AlienContact (contact_id self) (timestamp self) (location self)
        (contact_type self) (signal_strength self) v (witness_count self)
        (message_received self) (is_verified self)
  | a_witness_count => fun v =>
      Build_AlienContact (contact_id self) (timestamp self) (location self)
        (contact_type self) (signal_strength self) (duration_minutes self) v
        (message_received self) (is_verified self)
  | a_message_received => fun v =>
      Build_AlienContact (contact_id self) (timestamp self) (location self)
        (contact_type self) (signal_strength self) (duration_minutes self)
        (witness_count self) v (is_verified self)
  | a_is_verified => fun v =>
      Build_AlienContact (contact_id self) (timestamp self) (location self)
        (contact_type self) (signal_strength self) (duration_minutes self)
        (witness_count self) (message_received self) v
  end v.

(** The statements of [validate_business_rules], in the order written. *)
Definition prefix_rule : guard AlienContact :=
  Guard (fun self => negb (startswith (contact_id self) "AC"))
    "Contact ID must start with 'AC' (Alien Contact)".

Definition physical_rule : guard AlienContact :=
  Guard (fun self =>
           ContactType_eqb (contact_type self) physical
           && negb (is_verified self))
    "Physical contact reports must be verified".

Definition telepathic_rule : guard AlienContact :=
  Guard (fun self =>
           ContactType_eqb (contact_type self) telepathic
           && (witness_count self <? 3))
    "Telepathic contact requires at least 3 witnesses".

Definition signal_rule : guard AlienContact :=
  Guard (fun self =>
           Qlt_bool 7 (signal_strength self)
           && negb (truthy (message_received self)))
    "Strong signals (> 7.0) should include a received message".

Definition rules : list (guard AlienContact) :=
  [prefix_rule; physical_rule; telepathic_rule; signal_rule].

Definition AlienContact_model : model Kwargs AlienContact :=
  Model validate_fields rules.

Definition offending (kw : Kwargs) : list path :=
  under
    [ (Key "contact_id", offends_required (length_within 5 15) (kw_contact_id kw));
      (Key "timestamp", offends_required unconstrained (kw_timestamp kw));
      (Key "location", offends_required (length_within 3 100) (kw_location kw));
      (Key "contact_type", offends_required unconstrained (kw_contact_type kw));
      (Key "signal_strength", offends_required (float_within 0 10) (kw_signal_strength kw));
      (Key "duration_minutes", offends_required (int_within 1 1440) (kw_duration_minutes kw));
      (Key "witness_count", offends_required (int_within 1 100) (kw_witness_count kw));
      (Key "message_received", offends_optional (length_at_most 500) (kw_message_received kw));
      (Key "is_verified", offends_optional unconstrained (kw_is_verified kw)) ].

(** [contact_type.value]. *)
Definition value (t : ContactType) : string :=
  match t with
  | radio => "radio"
  | visual => "visual"
  | physical => "physical"
  | telepathic => "telepathic"
  end.

Definition print_contact (repr : Q -> string) (c : AlienContact)
  : list string :=
  let msg :=
    match message_received c with
    | Some (String a rest) => String a rest
    | _ => "(no message)"
    end in
  [ "ID: " ++ contact_id c;
    "Type: " ++ value (contact_type c);
    "Location: " ++ location c;
    "Signal: " ++ repr (signal_strength c) ++ "/10";
    "Duration: " ++ str_int (duration_minutes c) ++ " minutes";
    "Witnesses: " ++ str_int (witness_count c);
    "Message: " ++ msg;
    "Verified: " ++ str_bool (is_verified c) ].

End alien_contact.

(** ** ex2: space_crew.py *)

Module space_crew.

Inductive Rank : Type := cadet | officer | lieutenant | captain | commander.

Definition Rank_eqb (a b : Rank) : bool :=
  match a, b with
  | cadet, cadet | officer, officer | lieutenant, lieutenant
  | captain, captain | commander, commander => true
  | _, _ => false
  end.

Record CrewMember : Type := Build_CrewMember {
  member_id : string;
  name : string;
  rank : Rank;
  age : Z;
  specialization : string;
  years_experience : Z;
  is_active : bool
}.

Record MemberKwargs : Type := Build_MemberKwargs {
  kw_member_id : option string;
  kw_name : option string;
  kw_rank : option Rank;
  kw_age : option Z;
  kw_specialization : option string;
  kw_years_experience : option Z;
  kw_is_active : option bool
}.

Definition validate_member (kw : MemberKwargs) : result CrewMember :=
  Ok Build_CrewMember
  <*> required "member_id" (str_constrained (Some 3) (Some 10)) (kw_member_id kw)
  <*> required "name" (str_constrained (Some 2) (Some 50)) (kw_name kw)
  <*> required "rank" any (kw_rank kw)
  <*> required "age" (int_constrained 18 80) (kw_age kw)
  <*> required "specialization" (str_constrained (Some 3) (Some 30)) (kw_specialization kw)
  <*> required "years_experience" (int_constrained 0 50) (kw_years_experience kw)
  <*> defaulted "is_active" true any (kw_is_active kw).

(** The elements of a list field, each checked in turn; a failure inside
    element [i] is reported under index [i]. *)
Fixpoint validate_items {A B : Type} (item : A -> result B) (i : nat)
  (l : list A) : result (list B) :=
  match l with
  | [] => Ok []
  | x :: xs =>
      Ok cons <*> at_loc (Idx i) (item x) <*> validate_items item (S i) xs
  end.

(** [List[T]] with [min_length] and [max_length]: a list that is too long is
    reported as such; otherwise the failures of its elements are reported,
    and the lower bound is checked on the elements that passed. *)
Definition list_constrained {A B : Type} (min_length max_length : Z)
  (item : A -> result B) (l : list A) : result (list B) :=
  if max_length <? Z.of_nat (length l) then fail too_long
  else match validate_items item 0 l with
       | Error report => Error report
       | Ok out =>
           if Z.of_nat (length out) <? min_length then fail too_short
           else Ok out
       end.

Record SpaceMission : Type := Build_SpaceMission {
  mission_id : string;
  mission_name : string;
  destination : string;
  launch_date : datetime;
  duration_days : Z;
  crew : list CrewMember;
  mission_status : string;
  budget_millions : Q
}.

Record Kwargs : Type := Build_Kwargs {
  kw_mission_id : option string;
  kw_mission_name : option string;
  kw_destination : option string;
  kw_launch_date : option datetime;
  kw_duration_days : option Z;
  kw_crew : option (list MemberKwargs);
  kw_mission_status : option string;
  kw_budget_millions : option Q
}.

Definition validate_fields (kw : Kwargs) : result SpaceMission :=
  Ok Build_SpaceMission
  <*> required "mission_id" (str_constrained (Some 5) (Some 15)) (kw_mission_id kw)
  <*> required "mission_name" (str_constrained (Some 3) (Some 100)) (kw_mission_name kw)
  <*> required "destination" (str_constrained (Some 3) (Some 50)) (kw_destination kw)
  <*> required "launch_date" any (kw_launch_date kw)
  <*> required "duration_days" (int_constrained 1 3650) (kw_duration_days kw)
  <*> required "crew" (list_constrained 1 12 validate_member) (kw_crew kw)
  <*> defaulted "mission_status" "planned" any (kw_mission_status kw)
  <*> required "budget_millions" (float_constrained 1 10000) (kw_budget_millions kw).

Definition startswith (s p : string) : bool := String.prefix p s.

(** [member.rank in (Rank.captain, Rank.commander)]. *)
Definition is_leader (member : CrewMember) : bool :=
  Rank_eqb (rank member) captain || Rank_eqb (rank member) commander.

(** [sum(1 for member in crew if member.years_experience >= 5)]. *)
Definition count_experienced (members : list CrewMember) : Z :=
  fold_right Z.add 0
    (map (fun _ => 1) (filter (fun member => 5 <=? years_experience member) members)).

(** [len(crew) / 2], the true division. *)
Definition half_crew (members : list CrewMember) : Q :=
  (inject_Z (Z.of_nat (length members)) / 2)%Q.

Definition validate_mission_id (self : SpaceMission) : except SpaceMission :=
  (when negb (startswith (mission_id self) "M")
   raise "Mission ID must start with 'M'") ;;
  let has_leader := existsb is_leader (crew self) in
  (when negb has_leader
   raise "Mission must have at least one Captain or Commander") ;;
  let experienced_count := 0 in
  (if 365 <? duration_days self then
     let experienced_count := count_experienced (crew self) in
     when Qlt_bool (inject_Z experienced_count) (half_crew (crew self))
     raise (let msg := "Long missions require at " in
            let msg1 := "least 50% experienced crew (5+ years)" in
            msg ++ msg1)
   else Return tt) ;;
  (when existsb (fun member => negb (is_active member)) (crew self)
   raise "All crew members must be active") ;;
  Return self.

Definition validate (kw : Kwargs) : result SpaceMission :=
  model_validator_after validate_mission_id (validate_fields kw).

Definition with_is_active (v : option bool) (kw : MemberKwargs)
  : MemberKwargs :=
  {| kw_member_id := kw_member_id kw;
     kw_name := kw_name kw;
     kw_rank := kw_rank kw;
     kw_age := kw_age kw;
     kw_specialization := kw_specialization kw;
     kw_years_experience := kw_years_experience kw;
     kw_is_active := v |}.

Definition with_mission_status (v : option string) (kw : Kwargs) : Kwargs :=
  {| kw_mission_id := kw_mission_id kw;
     kw_mission_name := kw_mission_name kw;
     kw_destination := kw_destination kw;
     kw_launch_date := kw_launch_date kw;
     kw_duration_days := kw_duration_days kw;
     kw_crew := kw_crew kw;
     kw_mission_status := v;
     kw_budget_millions := kw_budget_millions kw |}.

(** The class sets no configuration: attributes are read with [getattr] and
    assigned with [setattr], and an assignment runs no check. *)
Inductive attribute : Type -> Type :=
| a_mission_id : attribute string
| a_mission_name : attribute string
| a_destination : attribute string
| a_launch_date : attribute datetime
| a_duration_days : attribute Z
| a_crew : attribute (list CrewMember)
| a_mission_status : attribute string
| a_budget_millions : attribute Q.

Definition getattr {T : Type} (a : attribute T) (self : SpaceMission) : T :=
  match a in attribute T return T with
  | a_mission_id => mission_id self
  | a_mission_name => mission_name self
  | a_destination => destination self
  | a_launch_date => launch_date self
  | a_duration_days => duration_days self
  | a_crew => crew self
  | a_mission_status => mission_status self
  | a_budget_millions => budget_millions self
  end.

Definition setattr {T : Type} (a : attribute T) (v : T) (self : SpaceMission)
  : SpaceMission :=
  match a in attribute T return T -> SpaceMission with
  | a_mission_id => fun v =>
      Build_SpaceMission v (mission_name self) (destination self)
        (launch_date self) (duration_days self) (crew self)
        (mission_status self) (budget_millions self)
  | a_mission_name => fun v =>
      Build_SpaceMission (mission_id self) v (destination self)
        (launch_date self) (duration_days self) (crew self)
        (mission_status self) (budget_millions self)
  | a_destination => fun v =>
      Build_SpaceMission (mission_id self) (mission_name self) v
        (launch_date self) (duration_days self) (crew self)
        (mission_status self) (budget_millions self)
  | a_launch_date => fun v =>
      Build_SpaceMission (mission_id self) (mission_name self)
        (destination self) v (duration_days self) (crew self)
        (mission_status self) (budget_millions self)
  | a_duration_days => fun v =>
      Build_SpaceMission (mission_id self) (mission_name self)
        (destination self) (launch_date self) v (crew self)
        (mission_status self) (budget_millions self)
  | a_crew => fun v =>
      Build_SpaceMission (mission_id self) (mission_name self)
        (destination self) (launch_date self) (duration_days self) v
        (mission_status self) (budget_millions self)
  | a_mission_status => fun v =>
      Build_SpaceMission (mission_id self) (mission_name self)
        (destination self) (launch_date self) (duration_days self) (crew self)
        v (budget_millions self)
  | a_budget_millions => fun v =>
      Build_SpaceMission (mission_id self) (mission_name self)
        (destination self) (launch_date self) (duration_days self) (crew self)
        (mission_status self) v
  end v.

(** The statements of [validate_mission_id], in the order written. *)
Definition prefix_rule : guard SpaceMission :=
  Guard (fun self => negb (startswith (mission_id self) "M"))
    "Mission ID must start with 'M'".

Definition leader_rule : guard SpaceMission :=
  Guard (fun self => negb (existsb is_leader (crew self)))
    "Mission must have at least one Captain or Commander".

Definition experience_rule : guard SpaceMission :=
  Guard (fun self =>
           (365 <? duration_days self)
           && Qlt_bool (inject_Z (count_experienced (crew self)))
                (half_crew (crew self)))
    ("Long missions require at " ++ "least 50% experienced crew (5+ years)").

Definition active_rule : guard SpaceMission :=
  Guard (fun self =>
           existsb (fun member => negb (is_active member)) (crew self))
    "All crew members must be active".

Definition rules : list (guard SpaceMission) :=
  [prefix_rule; leader_rule; experience_rule; active_rule].

(** [CrewMember] has no "after" validator. *)
Definition CrewMember_model : model MemberKwargs CrewMember :=
  Model validate_member [].

Definition SpaceMission_model : model Kwargs SpaceMission :=
  Model validate_fields rules.

Definition member_offending (kw : MemberKwargs) : list path :=
  under
    [ (Key "member_id", offends_required (length_within 3 10) (kw_member_id kw));
      (Key "name", offends_required (length_within 2 50) (kw_name kw));
      (Key "rank", offends_required unconstrained (kw_rank kw));
      (Key "age", offends_required (int_within 18 80) (kw_age kw));
      (Key "specialization", offends_required (length_within 3 30) (kw_specialization kw));
      (Key "years_experience", offends_required (int_within 0 50) (kw_years_experience kw));
      (Key "is_active", offends_optional unconstrained (kw_is_active kw)) ].

(** The crew itself offends when it is absent or its size is out of range;
    and whatever its size, every offending field of one of its elements
    offends, under the index of that element. *)
Definition crew_offending (v : option (list MemberKwargs)) : list path :=
  match v with
  | None => here true
  | Some l =>
      (here (negb (size_within 1 12 l))
       ++ under (indexed 0 (map member_offending l)))%list
  end.

Definition offending (kw : Kwargs) : list path :=
  under
    [ (Key "mission_id", offends_required (length_within 5 15) (kw_mission_id kw));
      (Key "mission_name", offends_required (length_within 3 100) (kw_mission_name kw));
      (Key "destination", offends_required (length_within 3 50) (kw_destination kw));
      (Key "launch_date", offends_required unconstrained (kw_launch_date kw));
      (Key "duration_days", offends_required (int_within 1 3650) (kw_duration_days kw));
      (Key "crew", crew_offending (kw_crew kw));
      (Key "mission_status", offends_optional unconstrained (kw_mission_status kw));
      (Key "budget_millions", offends_required (float_within 1 10000) (kw_budget_millions kw)) ].

(** The locations that [list_constrained] names for the crew: the crew
    alone when it is absent or its size is out of range, and otherwise the
    fields that fail inside its elements. *)
Definition crew_reported (v : option (list MemberKwargs)) : list path :=
  match v with
  | None => here true
  | Some l =>
      if size_within 1 12 l then under (indexed 0 (map member_offending l))
      else here true
  end.

(** The locations that the field checks of a mission name. *)
Definition reported (kw : Kwargs) : list path :=
  under
    [ (Key "mission_id", offends_required (length_within 5 15) (kw_mission_id kw));
      (Key "mission_name", offends_required (length_within 3 100) (kw_mission_name kw));
      (Key "destination", offends_required (length_within 3 50) (kw_destination kw));
      (Key "launch_date", offends_required unconstrained (kw_launch_date kw));
      (Key "duration_days", offends_required (int_within 1 3650) (kw_duration_days kw));
      (Key "crew", crew_reported (kw_crew kw));
      (Key "mission_status", offends_optional unconstrained (kw_mission_status kw));
      (Key "budget_millions", offends_required (float_within 1 10000) (kw_budget_millions kw)) ].

Definition with_crew (v : option (list MemberKwargs)) (kw : Kwargs)
  : Kwargs :=
  {| kw_mission_id := kw_mission_id kw;
     kw_mission_name := kw_mission_name kw;
     kw_destination := kw_destination kw;
     kw_launch_date := kw_launch_date kw;
     kw_duration_days := kw_duration_days kw;
     kw_crew := v;
     kw_mission_status := kw_mission_status kw;
     kw_budget_millions := kw_budget_millions kw |}.

(** [rank.value]. *)
Definition value (r : Rank) : string :=
  match r with
  | cadet => "cadet"
  | officer => "officer"
  | lieutenant => "lieutenant"
  | captain => "captain"
  | commander => "commander"
  end.

(** The line written for one member of the crew. *)
Definition member_line (member : CrewMember) : string :=
  "- " ++ name member ++ " " ++ "(" ++ value (rank member) ++ ") "
  ++ "- " ++ specialization member.

Definition print_contact (repr : Q -> string) (m : SpaceMission)
  : list string :=
  List.app
    [ "Mission: " ++ mission_name m;
      "ID: " ++ mission_id m;
      "Destination: " ++ destination m;
      "Duration: " ++ str_int (duration_days m) ++ " days";
      "Budget: $" ++ repr (budget_millions m) ++ "M";
      "Crew size: " ++ str_int (Z.of_nat (List.length (crew m)));
      "Crew members:" ]
    (map member_line (crew m)).

End space_crew.

(** ** The four record classes together *)

Inductive raw_input : Type :=
| StationInput (kw : space_station.Kwargs)
| ContactInput (kw : alien_contact.Kwargs)
| MemberInput (kw : space_crew.MemberKwargs)
| MissionInput (kw : space_crew.Kwargs).

Inductive record : Type :=
| StationRecord (self : space_station.SpaceStation)
| ContactRecord (self : alien_contact.AlienContact)
| MemberRecord (self : space_crew.CrewMember)
| MissionRecord (self : space_crew.SpaceMission).

Definition wrap {A : Type} (tag : A -> record) (r : result A) : result record :=
  match r with
  | Ok self => Ok (tag self)
  | Error report => Error report
  end.

(** Building an instance of the class the input is meant for. *)
Definition validate (raw : raw_input) : result record :=
  match raw with
  | StationInput kw => wrap StationRecord (space_station.validate kw)
  | ContactInput kw => wrap ContactRecord (alien_contact.validate kw)
  | MemberInput kw => wrap MemberRecord (space_crew.validate_member kw)
  | MissionInput kw => wrap MissionRecord (space_crew.validate kw)
  end.

(** The field checks alone, before any "after" validator. *)
Definition validate_fields (raw : raw_input) : result record :=
  match raw with
  | StationInput kw => wrap StationRecord (space_station.validate kw)
  | ContactInput kw => wrap ContactRecord (alien_contact.validate_fields kw)
  | MemberInput kw => wrap MemberRecord (space_crew.validate_member kw)
  | MissionInput kw => wrap MissionRecord (space_crew.validate_fields kw)
  end.

(** The messages of the validator statements whose condition holds on the
    instance, in the order of the statements. *)
Definition violated_rules (r : record) : list string :=
  match r with
  | StationRecord _ => []
  | ContactRecord self => map text (fired alien_contact.rules self)
  | MemberRecord _ => []
  | MissionRecord self => map text (fired space_crew.rules self)
  end.

Definition offending (raw : raw_input) : list path :=
  match raw with
  | StationInput kw => space_station.offending kw
  | ContactInput kw => alien_contact.offending kw
  | MemberInput kw => space_crew.member_offending kw
  | MissionInput kw => space_crew.offending kw
  end.

(** The locations that the field checks name; only a mission with a crew
    list can make them differ from the offending fields. *)
Definition reported (raw : raw_input) : list path :=
  match raw with
  | StationInput kw => space_station.offending kw
  | ContactInput kw => alien_contact.offending kw
  | MemberInput kw => space_crew.member_offending kw
  | MissionInput kw => space_crew.reported kw
  end.

(** Whether the crew list of the input, when it has one, holds no more
    than the 12 elements it may hold. *)
Definition crew_within_max (raw : raw_input) : bool :=
  match raw with
  | MissionInput kw =>
      match space_crew.kw_crew kw with
      | Some l => Z.of_nat (length l) <=? 12
      | None => true
      end
  | _ => true
  end.

(** A location inside an element of the crew: [crew], an index, and more. *)
Definition element_of_crew (p : path) : bool :=
  match p with
  | Key field :: Idx _ :: _ => String.eqb field "crew"
  | _ => false
  end.

(** The fields that are looked into: all of them, except those of the
    elements of a crew list that is longer than it may be. *)
Definition examined (raw : raw_input) (p : path) : bool :=
  crew_within_max raw || negb (element_of_crew p).

(** ** Fields declared without a default *)

Definition absent {A : Type} (v : option A) : bool :=
  match v with
  | None => true
  | Some _ => false
  end.

(** The fields of each class that have no default, in declaration order,
    each with whether the input leaves it out. *)
Definition required_fields (raw : raw_input) : list (string * bool) :=
  match raw with
  | StationInput kw =>
      [ ("station_id", absent (space_station.kw_station_id kw));
        ("name", absent (space_station.kw_name kw));
        ("crew_size", absent (space_station.kw_crew_size kw));
        ("power_level", absent (space_station.kw_power_level kw));
        ("oxygen_level", absent (space_station.kw_oxygen_level kw));
        ("last_maintenance", absent (space_station.kw_last_maintenance kw)) ]
  | ContactInput kw =>
      [ ("contact_id", absent (alien_contact.kw_contact_id kw));
        ("timestamp", absent (alien_contact.kw_timestamp kw));
        ("location", absent (alien_contact.kw_location kw));
        ("contact_type", absent (alien_contact.kw_contact_type kw));
        ("signal_strength", absent (alien_contact.kw_signal_strength kw));
        ("duration_minutes", absent (alien_contact.kw_duration_minutes kw));
        ("witness_count", absent (alien_contact.kw_witness_count kw)) ]
  | MemberInput kw =>
      [ ("member_id", absent (space_crew.kw_member_id kw));
        ("name", absent (space_crew.kw_name kw));
        ("rank", absent (space_crew.kw_rank kw));
        ("age", absent (space_crew.kw_age kw));
        ("specialization", absent (space_crew.kw_specialization kw));
        ("years_experience", absent (space_crew.kw_years_experience kw)) ]
  | MissionInput kw =>
      [ ("mission_id", absent (space_crew.kw_mission_id kw));
        ("mission_name", absent (space_crew.kw_mission_name kw));
        ("destination", absent (space_crew.kw_destination kw));
        ("launch_date", absent (space_crew.kw_launch_date kw));
        ("duration_days", absent (space_crew.kw_duration_days kw));
        ("crew", absent (space_crew.kw_crew kw));
        ("budget_millions", absent (space_crew.kw_budget_millions kw)) ]
  end.

(** ** Sample inputs, after the demonstrations of the three modules *)

Definition maintenance_day : datetime := Datetime 2024 2 1 10 30 0.

Definition station_ok : space_station.Kwargs :=
  space_station.Build_Kwargs
    (Some "ISS001") (Some "International Space Station") (Some 6)
    (Some (855 # 10)%Q) (Some (923 # 10)%Q) (Some maintenance_day)
    (Some true) (Some "All systems nominal.").

Definition contact_telepathic : alien_contact.Kwargs :=
  alien_contact.Build_Kwargs
    (Some "AC_2024_002") (Some maintenance_day) (Some "Desert Outpost")
    (Some alien_contact.telepathic) (Some 6%Q) (Some 10) (Some 1)
    None (Some false).

(** The same report filed under an identifier without the prefix. *)
Definition contact_telepathic_unprefixed : alien_contact.Kwargs :=
  alien_contact.Build_Kwargs
    (Some "XX_2024_002") (Some maintenance_day) (Some "Desert Outpost")
    (Some alien_contact.telepathic) (Some 6%Q) (Some 10) (Some 1)
    None (Some false).

(** A physical contact whose [is_verified] is left out. *)
Definition contact_physical : alien_contact.Kwargs :=
  alien_contact.Build_Kwargs
    (Some "AC_2024_003") (Some maintenance_day) (Some "Area 51, Nevada")
    (Some alien_contact.physical) (Some 6%Q) (Some 45) (Some 5)
    None None.

Definition sarah : space_crew.MemberKwargs :=
  space_crew.Build_MemberKwargs
    (Some "C03") (Some "Sarah Connor") (Some space_crew.commander) (Some 45)
    (Some "mission command") (Some 20) (Some true).

Definition john : space_crew.MemberKwargs :=
  space_crew.Build_MemberKwargs
    (Some "C04") (Some "John Smith") (Some space_crew.officer) (Some 29)
    (Some "engineering") (Some 29) (Some true).

Definition alice : space_crew.MemberKwargs :=
  space_crew.Build_MemberKwargs
    (Some "C01") (Some "Alice") (Some space_crew.officer) (Some 30)
    (Some "engineering") (Some 6) (Some true).

Definition bob : space_crew.MemberKwargs :=
  space_crew.Build_MemberKwargs
    (Some "C02") (Some "Bob") (Some space_crew.lieutenant) (Some 35)
    (Some "navigation") (Some 10) (Some true).

Definition crew_with_leader : list space_crew.MemberKwargs := [sarah; john].

Definition crew_no_leader : list space_crew.MemberKwargs := [alice; bob].

Definition mission_ok : space_crew.Kwargs :=
  space_crew.Build_Kwargs
    (Some "M2026_OK") (Some "Mars Exploration Mission") (Some "Mars")
    (Some maintenance_day) (Some 900) (Some crew_with_leader) None
    (Some 2500%Q).

(** The same mission filed under an identifier without the prefix. *)
Definition mission_unprefixed : space_crew.Kwargs :=
  space_crew.Build_Kwargs
    (Some "X2026_OK") (Some "Mars Exploration Mission") (Some "Mars")
    (Some maintenance_day) (Some 900) (Some crew_with_leader) None
    (Some 2500%Q).

(** No leader in the crew, and one member on leave. *)
Definition mission_two_faults : space_crew.Kwargs :=
  space_crew.Build_Kwargs
    (Some "M2026_ERR") (Some "Test Mission Without Leader") (Some "Mars")
    (Some maintenance_day) (Some 120)
    (Some [alice; space_crew.with_is_active (Some false) bob]) None
    (Some 800%Q).

(** A led crew with one member on leave. *)
Definition mission_inactive : space_crew.Kwargs :=
  space_crew.Build_Kwargs
    (Some "M2026_OK") (Some "Mars Exploration Mission") (Some "Mars")
    (Some maintenance_day) (Some 900)
    (Some [sarah; space_crew.with_is_active (Some false) john]) None
    (Some 2500%Q).

(** A strong radio signal whose received message is the empty text. *)
Definition contact_strong_silent : alien_contact.Kwargs :=
  alien_contact.Build_Kwargs
    (Some "AC_2024_001") (Some maintenance_day) (Some "Area 51, Nevada")
    (Some alien_contact.radio) (Some (85 # 10)%Q) (Some 45) (Some 5)
    (Some EmptyString) (Some false).

(** The demonstration mission with no crew list at all. *)
Definition mission_no_crew : space_crew.Kwargs :=
  space_crew.with_crew None mission_ok.

(** The demonstration mission with an under-age second member. *)
Definition mission_young_member : space_crew.Kwargs :=
  space_crew.with_crew
    (Some [ sarah;
            space_crew.Build_MemberKwargs
              (Some "C04") (Some "John Smith") (Some space_crew.officer)
              (Some 17) (Some "engineering") (Some 29) (Some true) ])
    mission_ok.

(** A crew member aged 17. *)
Definition young : space_crew.MemberKwargs :=
  space_crew.Build_MemberKwargs
    (Some "C05") (Some "Kyle Reese") (Some space_crew.cadet) (Some 17)
    (Some "navigation") (Some 0) (Some true).

(** The demonstration mission with a crew of 13, two of them aged 17. *)
Definition mission_overlong : space_crew.Kwargs :=
  space_crew.with_crew
    (Some [ sarah; john; john; young; john; john; john; young;
            john; john; john; john; john ])
    mission_ok.

(** * Properties *)

Open Scope list_scope.

(** ** Gathering of results *)

Lemma collect_ok {A B : Type} (f : result (A -> B)) (x : result A) (b : B) :
  f <*> x = Ok b -> exists g a, f = Ok g /\ x = Ok a /\ b = g a.
Proof.
  destruct f as [g|e1], x as [a|e2]; simpl; intros H; try discriminate.
  inversion H; subst. now exists g, a.
Qed.

Lemma errors_of_collect {A B : Type} (f : result (A -> B)) (x : result A) :
  errors_of (f <*> x) = errors_of f ++ errors_of x.
Proof.
  destruct f, x; simpl; auto using app_nil_r.
Qed.

Lemma collect_is_ok {A B : Type} (f : result (A -> B)) (x : result A) :
  is_ok (f <*> x) = is_ok f && is_ok x.
Proof. destruct f, x; reflexivity. Qed.

Lemma is_ok_errors {A : Type} (r : result A) :
  is_ok r = false -> r = Error (errors_of r).
Proof. destruct r; simpl; congruence. Qed.

Lemma at_loc_ok {A : Type} (l : loc_item) (r : result A) (a : A) :
  at_loc l r = Ok a -> r = Ok a.
Proof. destruct r; simpl; congruence. Qed.

Lemma required_ok {A B : Type} field (validator : A -> result B) v b :
  required field validator v = Ok b ->
  exists a, v = Some a /\ validator a = Ok b.
Proof.
  unfold required. intros H. apply at_loc_ok in H.
  destruct v as [a|]; [now exists a | discriminate].
Qed.

Lemma int_constrained_spec (ge le v : Z) :
  int_constrained ge le v =
  if v <? ge then fail greater_than_equal
  else if le <? v then fail less_than_equal else Ok v.
Proof. reflexivity. Qed.

Lemma int_constrained_within (ge le v : Z) :
  ge <= v <= le -> int_constrained ge le v = Ok v.
Proof.
  intros [H1 H2]. unfold int_constrained.
  destruct (Z.ltb_spec v ge); [lia|].
  destruct (Z.ltb_spec le v); [lia|]. reflexivity.
Qed.

Ltac invert_collect :=
  repeat match goal with
    | H : _ <*> _ = Ok _ |- _ =>
        apply collect_ok in H; destruct H as (? & ? & H & ? & ?)
    | H : Ok _ = Ok _ |- _ => inversion H; subst; clear H
    end.

(** ** Bounds of [crew_size] *)

(** C6: the bounds of [crew_size] are both included. A station that is
    accepted stays accepted when its [crew_size] is replaced by any integer
    from 1 to 20, is refused for any integer outside, and with
    [crew_size=25] the report holds exactly one entry, of the
    "less than or equal" range kind, located at [crew_size]. *)
Theorem crew_size_range_inclusive
  (kw : space_station.Kwargs) (st : space_station.SpaceStation)
  (H : space_station.validate kw = Ok st) :
  (forall n, 1 <= n <= 20 ->
     space_station.validate (space_station.with_crew_size (Some n) kw)
     = Ok (space_station.setattr space_station.a_crew_size n st))
  /\ (forall n, n < 1 \/ 20 < n ->
        is_ok (space_station.validate
                 (space_station.with_crew_size (Some n) kw)) = false)
  /\ space_station.validate (space_station.with_crew_size (Some 25) kw)
     = Error [ {| v_loc := [Key "crew_size"]; v_type := less_than_equal |} ].
Proof.
  unfold space_station.validate in *. invert_collect. subst.
  cbn [space_station.with_crew_size space_station.kw_station_id
       space_station.kw_name space_station.kw_crew_size
       space_station.kw_power_level space_station.kw_oxygen_level
       space_station.kw_last_maintenance space_station.kw_is_operational
       space_station.kw_notes].
  repeat match goal with
         | E : _ = Ok _ |- _ => rewrite E; clear E
         end.
  clear. unfold required, int_constrained. cbn [at_loc].
  split; [|split].
  - intros n Hn.
    destruct (Z.ltb_spec n 1); [lia|]. destruct (Z.ltb_spec 20 n); [lia|].
    reflexivity.
  - intros n Hn.
    destruct (Z.ltb_spec n 1); [reflexivity|].
    destruct (Z.ltb_spec 20 n); [reflexivity|lia].
  - reflexivity.
Qed.

Lemma crew_size_range_inclusive_witness :
  space_station.validate
    (space_station.with_crew_size (Some 25) station_ok)
  = Error [ {| v_loc := [Key "crew_size"]; v_type := less_than_equal |} ].
Proof.
  refine (proj2 (proj2 (crew_size_range_inclusive station_ok _ _))).
  reflexivity.
Defined.

(** ** Running the validator statements *)

Lemma step_deterministic {A : Type} (self : A) (c c1 c2 : config A) :
  step self c c1 -> step self c c2 -> c1 = c2.
Proof.
  intros H1 H2. inversion H1; subst; inversion H2; subst;
    congruence.
Qed.

Lemma final_stuck {A : Type} (self : A) (c c' : config A) :
  final c = true -> ~ step self c c'.
Proof.
  intros Hf Hs. inversion Hs; subst; discriminate.
Qed.

Ltac stuck :=
  match goal with
  | Hs : step _ ?c _, Hf : final ?c = true |- _ =>
      exact (final_stuck _ _ _ Hf Hs)
  end.

Lemma steps_final_unique {A : Type} (self : A) (c c1 c2 : config A) :
  steps self c c1 -> final c1 = true ->
  steps self c c2 -> final c2 = true -> c1 = c2.
Proof.
  intros H1. revert c2.
  induction H1 as [c|c ca cb Hs Hrest IH]; intros c2 Hf1 H2 Hf2.
  - inversion H2; subst; [reflexivity|].
    exfalso. stuck.
  - inversion H2; subst.
    + exfalso. stuck.
    + assert (ca = c0) by (eapply step_deterministic; eauto). subst.
      now apply IH.
Qed.

Lemma steps_exec {A : Type} (gs : list (guard A)) (self : A) :
  steps self (Running gs) (outcome (exec gs self)).
Proof.
  induction gs as [|g rest IH]; simpl.
  - eapply steps_step; [apply step_return | apply steps_refl].
  - destruct (fires g self) eqn:E.
    + eapply steps_step; [now apply step_raise | apply steps_refl].
    + eapply steps_step; [now apply step_skip | exact IH].
Qed.

Lemma final_outcome {A : Type} (r : except A) : final (outcome r) = true.
Proof. now destruct r. Qed.

Lemma steps_is_exec {A : Type} (gs : list (guard A)) (self : A) c :
  steps self (Running gs) c -> final c = true -> c = outcome (exec gs self).
Proof.
  intros H Hf.
  eapply steps_final_unique; eauto using steps_exec, final_outcome.
Qed.

(** The first statement whose condition holds is the one that raises. *)
Lemma exec_fired {A : Type} (gs : list (guard A)) (self : A) :
  exec gs self =
  match fired gs self with
  | [] => Return self
  | g :: _ => Raise (text g)
  end.
Proof.
  induction gs as [|g rest IH]; simpl; [reflexivity|].
  unfold fired in *. simpl. destruct (fires g self); auto.
Qed.

(** The body of each validator, read statement by statement, is the run of
    its list of statements. *)
Lemma validate_business_rules_exec (self : alien_contact.AlienContact) :
  alien_contact.validate_business_rules self
  = exec alien_contact.rules self.
Proof.
  unfold alien_contact.validate_business_rules, alien_contact.rules.
  cbn [exec fires text alien_contact.prefix_rule alien_contact.physical_rule
       alien_contact.telepathic_rule alien_contact.signal_rule].
  unfold raise_if.
  repeat match goal with
         | |- context [if ?c then _ else _] => destruct c; cbn [bind]
         end; reflexivity.
Qed.

Lemma validate_mission_id_exec (self : space_crew.SpaceMission) :
  space_crew.validate_mission_id self = exec space_crew.rules self.
Proof.
  unfold space_crew.validate_mission_id, space_crew.rules.
  cbn [exec fires text space_crew.prefix_rule space_crew.leader_rule
       space_crew.experience_rule space_crew.active_rule].
  unfold raise_if.
  destruct (negb (space_crew.startswith _ _)); cbn [bind]; [reflexivity|].
  destruct (negb (existsb _ _)); cbn [bind]; [reflexivity|].
  destruct (365 <? space_crew.duration_days self); cbn [bind andb].
  - destruct (Qlt_bool _ _); cbn [bind]; [reflexivity|].
    destruct (existsb _ _); reflexivity.
  - destruct (existsb _ _); reflexivity.
Qed.

Lemma model_validator_after_ext {A : Type} (f g : A -> except A) r :
  (forall x, f x = g x) ->
  model_validator_after f r = model_validator_after g r.
Proof.
  intros H. unfold model_validator_after.
  destruct r as [self|]; [now rewrite H | reflexivity].
Qed.

Lemma contact_validate_rules kw :
  alien_contact.validate kw
  = construct alien_contact.AlienContact_model kw.
Proof.
  apply model_validator_after_ext, validate_business_rules_exec.
Qed.

Lemma mission_validate_rules kw :
  space_crew.validate kw = construct space_crew.SpaceMission_model kw.
Proof.
  apply model_validator_after_ext, validate_mission_id_exec.
Qed.

Lemma exec_return {A : Type} (gs : list (guard A)) (self a : A) :
  exec gs self = Return a -> a = self.
Proof.
  induction gs as [|g rest IH]; simpl.
  - congruence.
  - destruct (fires g self); [discriminate | exact IH].
Qed.

Lemma constructs_construct {K A : Type} (m : model K A) (kw : K) o :
  constructs m kw o <-> o = construct m kw.
Proof.
  unfold construct, model_validator_after. split.
  - intros H. destruct H as [report E|self msg E Hs|self E Hs]; rewrite E.
    + reflexivity.
    + apply steps_is_exec in Hs; [|reflexivity].
      destruct (exec (after m) self); simpl in Hs; congruence.
    + apply steps_is_exec in Hs; [|reflexivity].
      destruct (exec (after m) self) eqn:Ex; simpl in Hs; try congruence.
      apply exec_return in Ex. congruence.
  - intros ->. destruct (fields m kw) as [self|report] eqn:E.
    + pose proof (steps_exec (after m) self) as Hs.
      destruct (exec (after m) self) eqn:Ex; simpl in Hs.
      * apply exec_return in Ex. subst. now apply constructs_return.
      * now eapply constructs_raise; eauto.
    + now apply constructs_field_errors.
Qed.

(** ** Values carried by an accepted instance *)

Lemma str_constrained_ok lo hi s x :
  str_constrained lo hi s = Ok x -> x = s.
Proof.
  unfold str_constrained.
  destruct lo as [lo|], hi as [hi|];
    repeat match goal with
      | |- context [if ?c then _ else _] => destruct c
      end; unfold fail; congruence.
Qed.

Lemma int_constrained_ok ge le v x :
  int_constrained ge le v = Ok x -> x = v /\ ge <= v <= le.
Proof.
  unfold int_constrained.
  destruct (Z.ltb_spec v ge); [discriminate|].
  destruct (Z.ltb_spec le v); [discriminate|].
  intros E. inversion E. lia.
Qed.

Lemma float_constrained_ok ge le v x :
  float_constrained ge le v = Ok x -> x = v.
Proof.
  unfold float_constrained.
  destruct (Qlt_bool v ge); [discriminate|].
  destruct (Qlt_bool le v); [discriminate|]. congruence.
Qed.

Lemma defaulted_any {A : Type} field (d : A) v x :
  defaulted field d any v = Ok x ->
  x = match v with Some a => a | None => d end.
Proof.
  unfold defaulted, any. destruct v; simpl; congruence.
Qed.

Ltac invert_fields :=
  invert_collect;
  repeat match goal with
    | H : required _ _ _ = Ok _ |- _ =>
        apply required_ok in H; destruct H as (? & ? & H)
    | H : defaulted _ _ any _ = Ok _ |- _ => apply defaulted_any in H
    | H : str_constrained _ _ _ = Ok _ |- _ => apply str_constrained_ok in H
    | H : int_constrained _ _ _ = Ok _ |- _ =>
        apply int_constrained_ok in H; destruct H as (H & ?)
    | H : float_constrained _ _ _ = Ok _ |- _ =>
        apply float_constrained_ok in H
    | H : any _ = Ok _ |- _ => unfold any in H; inversion H; clear H
    end;
  subst.

Lemma contact_fields_values kw self :
  alien_contact.validate_fields kw = Ok self ->
  alien_contact.kw_contact_id kw = Some (alien_contact.contact_id self)
  /\ alien_contact.kw_contact_type kw
     = Some (alien_contact.contact_type self)
  /\ alien_contact.kw_witness_count kw
     = Some (alien_contact.witness_count self)
  /\ alien_contact.is_verified self
     = match alien_contact.kw_is_verified kw with
       | Some b => b
       | None => false
       end.
Proof.
  unfold alien_contact.validate_fields. intros H. invert_fields.
  simpl. auto.
Qed.

Lemma model_validator_after_fields {A : Type} (rules : list (guard A))
  (r : result A) (self : A) :
  r = Ok self ->
  model_validator_after (exec rules) r =
  match fired rules self with
  | [] => Ok self
  | g :: _ => fail (value_error (text g))
  end.
Proof.
  intros ->. unfold model_validator_after. rewrite exec_fired.
  destruct (fired rules self); reflexivity.
Qed.

Lemma contact_validate_fired kw self :
  alien_contact.validate_fields kw = Ok self ->
  alien_contact.validate kw =
  match fired alien_contact.rules self with
  | [] => Ok self
  | g :: _ => fail (value_error (text g))
  end.
Proof.
  intros Hf. rewrite contact_validate_rules.
  now apply model_validator_after_fields.
Qed.

Lemma mission_validate_fired kw self :
  space_crew.validate_fields kw = Ok self ->
  space_crew.validate kw =
  match fired space_crew.rules self with
  | [] => Ok self
  | g :: _ => fail (value_error (text g))
  end.
Proof.
  intros Hf. rewrite mission_validate_rules.
  now apply model_validator_after_fields.
Qed.

(** ** Contact reports *)

(** C8: a contact report built without [is_verified] carries
    [is_verified = False]; and when such a report is a physical contact
    whose identifier has the prefix, the construction is refused by the
    statement on verified physical contacts. *)
Theorem is_verified_defaults_to_false
  (kw : alien_contact.Kwargs) (self : alien_contact.AlienContact)
  (Homitted : alien_contact.kw_is_verified kw = None)
  (Hfields : alien_contact.validate_fields kw = Ok self) :
  alien_contact.is_verified self = false
  /\ (alien_contact.kw_contact_type kw = Some alien_contact.physical ->
      alien_contact.startswith (alien_contact.contact_id self) "AC" = true ->
      alien_contact.validate kw
      = Error [ {| v_loc := [];
                   v_type := value_error
                     "Physical contact reports must be verified" |} ]).
Proof.
  destruct (contact_fields_values kw self Hfields) as (_ & Ht & _ & Hv).
  rewrite Homitted in Hv. split; [exact Hv|].
  intros Hp Hid. rewrite Ht in Hp. inversion Hp as [Hp'].
  unfold alien_contact.validate. rewrite Hfields. simpl.
  unfold alien_contact.validate_business_rules.
  rewrite Hid, Hp', Hv. reflexivity.
Qed.

Lemma is_verified_defaults_to_false_witness :
  alien_contact.kw_is_verified contact_physical = None
  /\ alien_contact.validate contact_physical
     = Error [ {| v_loc := [];
                  v_type := value_error
                    "Physical contact reports must be verified" |} ].
Proof.
  split; [reflexivity|].
  refine (proj2 (is_verified_defaults_to_false contact_physical _ _ _) _ _);
    reflexivity.
Defined.

(** C5, as the code has it: for a contact report that passes every field
    check, whose identifier has the prefix, with
    [contact_type=telepathic]: when [witness_count] is below 3 (1 in
    particular) the construction is refused with exactly one entry, a
    [value_error] whose text is "Telepathic contact requires at least 3
    witnesses"; from 3 witnesses on the statement does not fire. *)
Theorem telepathic_requires_three_witnesses
  (kw : alien_contact.Kwargs) (self : alien_contact.AlienContact)
  (Hfields : alien_contact.validate_fields kw = Ok self)
  (Hprefix : alien_contact.startswith (alien_contact.contact_id self) "AC"
             = true)
  (Htype : alien_contact.kw_contact_type kw = Some alien_contact.telepathic) :
  (forall n, alien_contact.kw_witness_count kw = Some n -> n < 3 ->
     alien_contact.validate kw
     = Error [ {| v_loc := [];
                  v_type := value_error
                    "Telepathic contact requires at least 3 witnesses" |} ])
  /\ (forall n, alien_contact.kw_witness_count kw = Some n -> 3 <= n ->
        fires alien_contact.telepathic_rule self = false).
Proof.
  destruct (contact_fields_values kw self Hfields) as (_ & Ht & Hw & _).
  rewrite Ht in Htype. inversion Htype as [Htype'].
  split; intros n Hn Hlt; rewrite Hw in Hn; inversion Hn; subst n.
  - unfold alien_contact.validate. rewrite Hfields. simpl.
    unfold alien_contact.validate_business_rules.
    rewrite Hprefix, Htype'. simpl.
    destruct (Z.ltb_spec (alien_contact.witness_count self) 3); [|lia].
    reflexivity.
  - simpl. rewrite Htype'. simpl.
    destruct (Z.ltb_spec (alien_contact.witness_count self) 3); [lia|].
    reflexivity.
Qed.

Lemma telepathic_requires_three_witnesses_witness :
  alien_contact.validate contact_telepathic
  = Error [ {| v_loc := [];
               v_type := value_error
                 "Telepathic contact requires at least 3 witnesses" |} ].
Proof.
  refine (proj1 (telepathic_requires_three_witnesses
                   contact_telepathic _ _ _ _) 1 _ _);
    try reflexivity.
Defined.

(** The text of the entry is not the lower-case one, and without the prefix
    on the identifier the entry is the one of the prefix statement. *)
Lemma telepathic_message_counterexample :
  alien_contact.validate_fields contact_telepathic_unprefixed
  = Ok (alien_contact.Build_AlienContact "XX_2024_002" maintenance_day
          "Desert Outpost" alien_contact.telepathic 6%Q 10 1 None false)
  /\ alien_contact.validate contact_telepathic_unprefixed
     = Error [ {| v_loc := [];
                  v_type := value_error
                    "Contact ID must start with 'AC' (Alien Contact)" |} ]
  /\ alien_contact.validate contact_telepathic_unprefixed
     <> Error [ {| v_loc := [];
                   v_type := value_error
                     "telepathic contact requires at least 3 witnesses" |} ]
  /\ alien_contact.validate contact_telepathic
     <> Error [ {| v_loc := [];
                   v_type := value_error
                     "telepathic contact requires at least 3 witnesses" |} ].
Proof.
  repeat split; try reflexivity; discriminate.
Qed.

(** ** First statement wins *)

Lemma wrap_ok {A : Type} (tag : A -> record) (r : result A) (x : record) :
  wrap tag r = Ok x -> exists self, r = Ok self /\ x = tag self.
Proof.
  destruct r as [self|]; simpl; intros H; inversion H. now exists self.
Qed.

(** C2: when an input passes every field check and its instance makes two
    or more validator statements fire, the construction is refused with
    exactly one entry, the [value_error] of the statement written first
    among those that fire. *)
Theorem first_violated_rule_reported
  (raw : raw_input) (self : record)
  (Hfields : validate_fields raw = Ok self)
  (Htwo : (2 <= length (violated_rules self))%nat) :
  exists msg rest,
    violated_rules self = msg :: rest
    /\ validate raw = Error [ {| v_loc := []; v_type := value_error msg |} ].
Proof.
  destruct raw as [kw|kw|kw|kw]; simpl in Hfields;
    apply wrap_ok in Hfields; destruct Hfields as (s & Hf & ->);
    unfold violated_rules in *; cbn [length] in Htwo; try lia;
    cbn [validate].
  - rewrite (contact_validate_fired kw s Hf).
    destruct (fired alien_contact.rules s) as [|g gs];
      cbn [map length wrap] in *; [lia|].
    now exists (text g), (map text gs).
  - rewrite (mission_validate_fired kw s Hf).
    destruct (fired space_crew.rules s) as [|g gs];
      cbn [map length wrap] in *; [lia|].
    now exists (text g), (map text gs).
Qed.

Lemma first_violated_rule_reported_witness :
  exists self,
    validate_fields (MissionInput mission_two_faults) = Ok self
    /\ violated_rules self
       = [ "Mission must have at least one Captain or Commander";
           "All crew members must be active" ]
    /\ validate (MissionInput mission_two_faults)
       = Error [ {| v_loc := [];
                    v_type := value_error
                      "Mission must have at least one Captain or Commander" |} ].
Proof.
  eexists. split; [reflexivity|]. split; [reflexivity|].
  destruct (first_violated_rule_reported
              (MissionInput mission_two_faults) _ eq_refl)
    as (msg & rest & Hm & Hv).
  - vm_compute. apply le_n.
  - vm_compute in Hm. inversion Hm; subst. exact Hv.
Defined.

(** ** Missions *)

Lemma model_validator_after_ok {A : Type} (body : A -> except A) r (x : A) :
  model_validator_after body r = Ok x ->
  exists self, r = Ok self /\ body self = Return x.
Proof.
  unfold model_validator_after. destruct r as [self|]; [|discriminate].
  destruct (body self) eqn:E; [|discriminate].
  intros H. inversion H; subst. now exists self.
Qed.

Ltac mission_projections :=
  cbn [space_crew.with_mission_status space_crew.setattr
       space_crew.kw_mission_id space_crew.kw_mission_name
       space_crew.kw_destination space_crew.kw_launch_date
       space_crew.kw_duration_days space_crew.kw_crew
       space_crew.kw_mission_status space_crew.kw_budget_millions
       space_crew.mission_id space_crew.mission_name space_crew.destination
       space_crew.launch_date space_crew.duration_days space_crew.crew
       space_crew.mission_status space_crew.budget_millions] in *.

Ltac split_conditions :=
  repeat match goal with
    | H : context [if ?c then _ else _] |- _ => destruct c
    end.

Lemma mission_fields_status v kw self :
  space_crew.validate_fields kw = Ok self ->
  space_crew.validate_fields (space_crew.with_mission_status v kw)
  = Ok (space_crew.setattr space_crew.a_mission_status
          (match v with Some s => s | None => "planned" end) self).
Proof.
  unfold space_crew.validate_fields. intros H. invert_collect. subst.
  mission_projections.
  repeat match goal with
         | E : required _ _ _ = Ok _ |- _ => rewrite E; clear E
         end.
  destruct v; reflexivity.
Qed.

(** None of the statements reads [mission_status]. *)
Lemma exec_rules_status s self :
  exec space_crew.rules self = Return self ->
  exec space_crew.rules
    (space_crew.setattr space_crew.a_mission_status s self)
  = Return (space_crew.setattr space_crew.a_mission_status s self).
Proof.
  destruct self.
  cbn [exec space_crew.rules fires text space_crew.prefix_rule
       space_crew.leader_rule space_crew.experience_rule
       space_crew.active_rule].
  mission_projections. intros H.
  split_conditions; try discriminate; reflexivity.
Qed.

(** C9: [mission_status] is free text. A mission that is accepted stays
    accepted, with the same other values, whatever text is given for
    [mission_status]; and when [mission_status] is left out the instance
    carries "planned". *)
Theorem mission_status_unconstrained
  (kw : space_crew.Kwargs) (m : space_crew.SpaceMission)
  (H : space_crew.validate kw = Ok m) :
  (forall s : string,
     space_crew.validate (space_crew.with_mission_status (Some s) kw)
     = Ok (space_crew.setattr space_crew.a_mission_status s m))
  /\ space_crew.validate (space_crew.with_mission_status None kw)
     = Ok (space_crew.setattr space_crew.a_mission_status "planned" m).
Proof.
  rewrite mission_validate_rules in H. unfold construct in H.
  cbn [fields after space_crew.SpaceMission_model] in H.
  apply model_validator_after_ok in H. destruct H as (self & Hf & Hb).
  assert (m = self) by (now apply exec_return in Hb). subst m.
  split; [intros s|]; rewrite mission_validate_rules; unfold construct;
    cbn [fields after space_crew.SpaceMission_model];
    rewrite (mission_fields_status _ _ _ Hf);
    unfold model_validator_after; rewrite (exec_rules_status _ _ Hb);
    reflexivity.
Qed.

Lemma mission_status_unconstrained_witness :
  exists m,
    space_crew.validate mission_ok = Ok m
    /\ space_crew.validate
         (space_crew.with_mission_status (Some "any text at all") mission_ok)
       = Ok (space_crew.setattr space_crew.a_mission_status
               "any text at all" m).
Proof.
  eexists. split; [reflexivity|].
  apply (proj1 (mission_status_unconstrained mission_ok _ eq_refl)).
Defined.

Lemma count_experienced_length (members : list space_crew.CrewMember) :
  space_crew.count_experienced members
  = Z.of_nat
      (length (filter (fun member => 5 <=? space_crew.years_experience member)
                 members)).
Proof.
  unfold space_crew.count_experienced.
  induction (filter _ members) as [|x xs IH]; [reflexivity|].
  cbn [map fold_right length]. rewrite IH. lia.
Qed.

Lemma half_crew_le (members : list space_crew.CrewMember) (c : Z) :
  (space_crew.half_crew members <= inject_Z c)%Q
  <-> Z.of_nat (length members) <= 2 * c.
Proof.
  unfold space_crew.half_crew, Qle, Qdiv, Qmult, Qinv, inject_Z.
  cbn [Qnum Qden Pos.mul]. lia.
Qed.

Lemma Qlt_bool_false_iff (x y : Q) : Qlt_bool x y = false <-> (y <= x)%Q.
Proof.
  unfold Qlt_bool. rewrite negb_false_iff. apply Qle_bool_iff.
Qed.

Lemma no_inactive (members : list space_crew.CrewMember) :
  forallb space_crew.is_active members = true ->
  existsb (fun member => negb (space_crew.is_active member)) members = false.
Proof.
  induction members as [|x xs IH]; simpl; [reflexivity|].
  intros H. apply andb_true_iff in H. destruct H as [Hx Hxs].
  rewrite Hx, (IH Hxs). reflexivity.
Qed.


(** C4, as the code has it: for a mission that passes every field check,
    whose identifier has the prefix, with a leader in the crew and every
    member active: when [duration_days > 365] the mission is accepted
    exactly when the number of members with [years_experience >= 5] is at
    least [len(crew) / 2], the exact quotient (that is, twice the number is
    at least the size of the crew); when [duration_days <= 365] it is
    accepted whatever the experience of the crew. *)
Theorem experience_rule_exact_half
  (kw : space_crew.Kwargs) (self : space_crew.SpaceMission)
  (Hfields : space_crew.validate_fields kw = Ok self)
  (Hprefix : space_crew.startswith (space_crew.mission_id self) "M" = true)
  (Hleader : existsb space_crew.is_leader (space_crew.crew self) = true)
  (Hactive : forallb space_crew.is_active (space_crew.crew self) = true) :
  (365 < space_crew.duration_days self ->
   (space_crew.validate kw = Ok self
    <-> (space_crew.half_crew (space_crew.crew self)
         <= inject_Z (space_crew.count_experienced (space_crew.crew self)))%Q))
  /\ (space_crew.duration_days self <= 365 ->
      space_crew.validate kw = Ok self)
  /\ space_crew.count_experienced (space_crew.crew self)
     = Z.of_nat
         (length
            (filter (fun member => 5 <=? space_crew.years_experience member)
               (space_crew.crew self)))
  /\ ((space_crew.half_crew (space_crew.crew self)
       <= inject_Z (space_crew.count_experienced (space_crew.crew self)))%Q
      <-> Z.of_nat (length (space_crew.crew self))
          <= 2 * space_crew.count_experienced (space_crew.crew self)).
Proof.
  rewrite (mission_validate_fired kw self Hfields).
  unfold fired, space_crew.rules. cbn [filter fires space_crew.prefix_rule
    space_crew.leader_rule space_crew.experience_rule space_crew.active_rule].
  rewrite Hprefix, Hleader, (no_inactive _ Hactive). cbn [negb].
  split; [|split; [|split]].
  - intros Hlong. destruct (Z.ltb_spec 365 (space_crew.duration_days self));
      [|lia]. cbn [andb].
    destruct (Qlt_bool _ _) eqn:E.
    + split; [discriminate|]. intros Hle.
      apply Qlt_bool_false_iff in Hle. congruence.
    + split; [|reflexivity]. intros _. now apply Qlt_bool_false_iff.
  - intros Hshort. destruct (Z.ltb_spec 365 (space_crew.duration_days self));
      [lia|]. reflexivity.
  - apply count_experienced_length.
  - apply half_crew_le.
Qed.

Lemma experience_rule_exact_half_witness :
  exists self,
    space_crew.validate_fields mission_ok = Ok self
    /\ 365 < space_crew.duration_days self
    /\ space_crew.validate mission_ok = Ok self.
Proof.
  eexists. split; [reflexivity|]. split; [reflexivity|].
  apply (proj1 (experience_rule_exact_half mission_ok _ eq_refl
                  eq_refl eq_refl eq_refl)).
  - reflexivity.
  - vm_compute. discriminate.
Defined.

(** With every field check passed, a leader, every member active, a long
    duration and an experienced crew, a mission whose identifier lacks the
    prefix is still refused. *)
Lemma experience_rule_counterexample :
  exists self,
    space_crew.validate_fields mission_unprefixed = Ok self
    /\ existsb space_crew.is_leader (space_crew.crew self) = true
    /\ forallb space_crew.is_active (space_crew.crew self) = true
    /\ 365 < space_crew.duration_days self
    /\ (space_crew.half_crew (space_crew.crew self)
        <= inject_Z (space_crew.count_experienced (space_crew.crew self)))%Q
    /\ space_crew.validate mission_unprefixed
       = Error [ {| v_loc := [];
                    v_type := value_error "Mission ID must start with 'M'" |} ].
Proof.
  eexists. split; [reflexivity|].
  repeat split; try reflexivity.
  vm_compute. discriminate.
Qed.

(** ** Crew members inside a mission *)

Lemma validate_items_ok {A B : Type} (item : A -> result B) i l out :
  space_crew.validate_items item i l = Ok out ->
  Forall2 (fun x y => item x = Ok y) l out.
Proof.
  revert i out.
  induction l as [|x xs IH]; intros i out;
    cbn [space_crew.validate_items]; intros H.
  - inversion H. constructor.
  - invert_collect. subst. constructor.
    + eapply at_loc_ok; eauto.
    + eapply IH; eauto.
Qed.

Lemma list_constrained_ok {A B : Type} lo hi (item : A -> result B) l out :
  space_crew.list_constrained lo hi item l = Ok out ->
  Forall2 (fun x y => item x = Ok y) l out.
Proof.
  unfold space_crew.list_constrained.
  destruct (hi <? Z.of_nat (length l)); [discriminate|].
  destruct (space_crew.validate_items item 0 l) as [out'|] eqn:E;
    [|discriminate].
  destruct (Z.of_nat (length out') <? lo); [discriminate|].
  intros H. inversion H; subst. eapply validate_items_ok; eauto.
Qed.

Lemma member_is_active kw m :
  space_crew.validate_member kw = Ok m ->
  space_crew.is_active m
  = match space_crew.kw_is_active kw with
    | Some b => b
    | None => true
    end.
Proof.
  unfold space_crew.validate_member. intros H. invert_fields. reflexivity.
Qed.

Lemma mission_crew_values kw self :
  space_crew.validate_fields kw = Ok self ->
  exists l, space_crew.kw_crew kw = Some l
            /\ Forall2 (fun x y => space_crew.validate_member x = Ok y)
                 l (space_crew.crew self).
Proof.
  unfold space_crew.validate_fields. intros H. invert_fields.
  match goal with
  | E : space_crew.kw_crew kw = Some ?l |- _ => exists l
  end.
  split; [assumption|]. simpl. eapply list_constrained_ok; eauto.
Qed.

Lemma inactive_member_kept l out mkw :
  Forall2 (fun x y => space_crew.validate_member x = Ok y) l out ->
  In mkw l ->
  space_crew.kw_is_active mkw = Some false ->
  exists m, space_crew.validate_member mkw = Ok m
            /\ space_crew.is_active m = false /\ In m out.
Proof.
  intros Hall Hin Hinactive.
  induction Hall as [|x y xs ys Hxy Hrest IH]; [contradiction|].
  destruct Hin as [->|Hin'].
  - exists y. split; [assumption|]. split; [|now left].
    rewrite (member_is_active _ _ Hxy), Hinactive. reflexivity.
  - destruct (IH Hin') as (m & ? & ? & ?). exists m.
    repeat split; auto. now right.
Qed.

(** C10: an inactive crew member is a valid [CrewMember] on its own, and
    what refuses a mission that holds one is the statement on active
    members of the mission. Setting [is_active] to any value keeps an
    accepted member accepted; and a mission that passes every field check
    with an inactive member in its crew, and on which none of the earlier
    statements fires, is refused with exactly one entry, the [value_error]
    "All crew members must be active". *)
Theorem inactive_member_rejected_by_mission_only
  (kw : space_crew.Kwargs) (self : space_crew.SpaceMission)
  (l : list space_crew.MemberKwargs) (mkw : space_crew.MemberKwargs)
  (Hfields : space_crew.validate_fields kw = Ok self)
  (Hcrew : space_crew.kw_crew kw = Some l)
  (Hin : In mkw l)
  (Hinactive : space_crew.kw_is_active mkw = Some false)
  (H1 : fires space_crew.prefix_rule self = false)
  (H2 : fires space_crew.leader_rule self = false)
  (H3 : fires space_crew.experience_rule self = false) :
  (exists m, space_crew.validate_member mkw = Ok m
             /\ space_crew.is_active m = false
             /\ In m (space_crew.crew self))
  /\ space_crew.validate kw
     = Error [ {| v_loc := [];
                  v_type := value_error "All crew members must be active" |} ]
  /\ (forall (k : space_crew.MemberKwargs) (m : space_crew.CrewMember)
        (b : bool),
        space_crew.validate_member k = Ok m ->
        space_crew.validate_member (space_crew.with_is_active (Some b) k)
        = Ok (space_crew.Build_CrewMember
                (space_crew.member_id m) (space_crew.name m)
                (space_crew.rank m) (space_crew.age m)
                (space_crew.specialization m)
                (space_crew.years_experience m) b)).
Proof.
  assert (Hm : exists m, space_crew.validate_member mkw = Ok m
                         /\ space_crew.is_active m = false
                         /\ In m (space_crew.crew self)).
  { destruct (mission_crew_values kw self Hfields) as (l' & Hl' & Hall).
    rewrite Hcrew in Hl'. inversion Hl'; subst l'.
    eapply inactive_member_kept; eauto. }
  split; [exact Hm|]. split.
  - rewrite (mission_validate_fired kw self Hfields).
    unfold fired, space_crew.rules. cbn [filter]. rewrite H1, H2, H3.
    destruct Hm as (m & _ & Hi & Hm).
    assert (E : fires space_crew.active_rule self = true).
    { cbn [fires space_crew.active_rule]. apply existsb_exists.
      exists m. split; [assumption|]. now rewrite Hi. }
    rewrite E. reflexivity.
  - intros k m b Hk. unfold space_crew.validate_member in *.
    invert_collect. subst.
    cbn [space_crew.with_is_active space_crew.kw_member_id
         space_crew.kw_name space_crew.kw_rank space_crew.kw_age
         space_crew.kw_specialization space_crew.kw_years_experience
         space_crew.kw_is_active].
    repeat match goal with
           | E : required _ _ _ = Ok _ |- _ => rewrite E; clear E
           end.
    reflexivity.
Qed.

Lemma inactive_member_rejected_by_mission_only_witness :
  (exists m,
     space_crew.validate_member (space_crew.with_is_active (Some false) john)
     = Ok m /\ space_crew.is_active m = false)
  /\ space_crew.validate mission_inactive
     = Error [ {| v_loc := [];
                  v_type := value_error "All crew members must be active" |} ].
Proof.
  destruct (inactive_member_rejected_by_mission_only
              mission_inactive _
              [sarah; space_crew.with_is_active (Some false) john]
              (space_crew.with_is_active (Some false) john)
              eq_refl eq_refl (or_intror (or_introl eq_refl)) eq_refl
              eq_refl eq_refl eq_refl)
    as ((m & Hm & Hi & _) & Hv & _).
  split; [now exists m | exact Hv].
Defined.

(** ** Assignment to the attributes of an instance *)




(** ** Every offending field is reported *)

Lemma locs_collect {A B : Type} (f : result (A -> B)) (x : result A) :
  locs (f <*> x) = locs f ++ locs x.
Proof.
  unfold locs. rewrite errors_of_collect. apply map_app.
Qed.

Lemma locs_at_loc {A : Type} (l : loc_item) (r : result A) :
  locs (at_loc l r) = map (cons l) (locs r).
Proof.
  unfold locs. destruct r as [a|report]; simpl; [reflexivity|].
  rewrite !map_map. reflexivity.
Qed.

Lemma locs_required {A B : Type} field (validator : A -> result B)
  (satisfied : A -> bool) (v : option A) :
  (forall a, locs (validator a) = here (negb (satisfied a))) ->
  locs (required field validator v)
  = map (cons (Key field)) (offends_required satisfied v).
Proof.
  intros H. unfold required. rewrite locs_at_loc.
  destruct v as [a|]; simpl; [now rewrite H | reflexivity].
Qed.

Lemma locs_defaulted {A : Type} field (d : A) (validator : A -> result A)
  (satisfied : A -> bool) (v : option A) :
  (forall a, locs (validator a) = here (negb (satisfied a))) ->
  locs (defaulted field d validator v)
  = map (cons (Key field)) (offends_optional satisfied v).
Proof.
  intros H. unfold defaulted. rewrite locs_at_loc.
  destruct v as [a|]; simpl; [now rewrite H | reflexivity].
Qed.

Lemma locs_optional {A : Type} field (validator : A -> result A)
  (satisfied : A -> bool) (v : option A) :
  (forall a, locs (validator a) = here (negb (satisfied a))) ->
  locs (optional field validator v)
  = map (cons (Key field)) (offends_optional satisfied v).
Proof.
  intros H. unfold optional. rewrite locs_at_loc.
  destruct v as [a|]; [|reflexivity].
  rewrite locs_collect, H. reflexivity.
Qed.

Lemma locs_str lo hi s :
  locs (str_constrained (Some lo) (Some hi) s)
  = here (negb (length_within lo hi s)).
Proof.
  unfold str_constrained, length_within.
  destruct (Z.ltb_spec (len s) lo), (Z.leb_spec lo (len s)); try lia;
    [reflexivity|].
  destruct (Z.ltb_spec hi (len s)), (Z.leb_spec (len s) hi); try lia;
    reflexivity.
Qed.

Lemma locs_str_max hi s :
  locs (str_constrained None (Some hi) s) = here (negb (length_at_most hi s)).
Proof.
  unfold str_constrained, length_at_most.
  destruct (Z.ltb_spec hi (len s)), (Z.leb_spec (len s) hi); try lia;
    reflexivity.
Qed.

Lemma locs_int lo hi v :
  locs (int_constrained lo hi v) = here (negb (int_within lo hi v)).
Proof.
  unfold int_constrained, int_within.
  destruct (Z.ltb_spec v lo), (Z.leb_spec lo v); try lia; [reflexivity|].
  destruct (Z.ltb_spec hi v), (Z.leb_spec v hi); try lia; reflexivity.
Qed.

Lemma locs_float lo hi v :
  locs (float_constrained lo hi v) = here (negb (float_within lo hi v)).
Proof.
  unfold float_constrained, float_within, Qlt_bool.
  destruct (Qle_bool lo v); [|reflexivity].
  destruct (Qle_bool v hi); reflexivity.
Qed.

Lemma locs_any {A : Type} (v : A) :
  locs (any v) = here (negb (unconstrained v)).
Proof. reflexivity. Qed.

Ltac locs_fields :=
  repeat rewrite locs_collect;
  repeat first
    [ rewrite (locs_required _ _ _ _ (locs_str _ _))
    | rewrite (locs_required _ _ _ _ (locs_int _ _))
    | rewrite (locs_required _ _ _ _ (locs_float _ _))
    | rewrite (locs_required _ _ _ _ locs_any)
    | rewrite (locs_defaulted _ _ _ _ _ locs_any)
    | rewrite (locs_optional _ _ _ _ (locs_str_max _)) ].

Ltac same_paths :=
  unfold under; cbn [flat_map fst snd];
  change (@locs) with (fun A (r : result A) => map v_loc (errors_of r));
  cbn [errors_of map];
  rewrite <- ?app_assoc, ?app_nil_r; cbn [app]; reflexivity.

Lemma station_locs kw :
  locs (space_station.validate kw) = space_station.offending kw.
Proof.
  unfold space_station.validate, space_station.offending.
  locs_fields. same_paths.
Qed.

Lemma contact_locs kw :
  locs (alien_contact.validate_fields kw) = alien_contact.offending kw.
Proof.
  unfold alien_contact.validate_fields, alien_contact.offending.
  locs_fields. same_paths.
Qed.

Lemma member_locs kw :
  locs (space_crew.validate_member kw) = space_crew.member_offending kw.
Proof.
  unfold space_crew.validate_member, space_crew.member_offending.
  locs_fields. same_paths.
Qed.

Lemma locs_validate_items i l :
  locs (space_crew.validate_items space_crew.validate_member i l)
  = under (indexed i (map space_crew.member_offending l)).
Proof.
  revert i. induction l as [|x xs IH]; intros i; [reflexivity|].
  cbn [space_crew.validate_items]. rewrite !locs_collect, locs_at_loc.
  rewrite IH, member_locs. reflexivity.
Qed.

Lemma validate_items_length {A B : Type} (item : A -> result B) i l out :
  space_crew.validate_items item i l = Ok out -> length out = length l.
Proof.
  intros H. apply validate_items_ok in H.
  symmetry. eapply Forall2_length; eauto.
Qed.

Lemma locs_crew l :
  locs (space_crew.list_constrained 1 12 space_crew.validate_member l)
  = if size_within 1 12 l
    then under (indexed 0 (map space_crew.member_offending l))
    else here true.
Proof.
  unfold space_crew.list_constrained, size_within.
  destruct (Z.ltb_spec 12 (Z.of_nat (length l))),
           (Z.leb_spec (Z.of_nat (length l)) 12); try lia.
  - rewrite andb_false_r. reflexivity.
  - rewrite andb_true_r. rewrite <- locs_validate_items.
    destruct (space_crew.validate_items space_crew.validate_member 0 l)
      as [out|report] eqn:E.
    + rewrite (validate_items_length _ _ _ _ E).
      destruct (Z.ltb_spec (Z.of_nat (length l)) 1),
               (Z.leb_spec 1 (Z.of_nat (length l))); try lia; reflexivity.
    + destruct l as [|x xs]; [discriminate|].
      destruct (Z.leb_spec 1 (Z.of_nat (length (x :: xs))));
        [reflexivity|]. simpl length in *. lia.
Qed.

Lemma locs_required_crew v :
  locs (required "crew"
          (space_crew.list_constrained 1 12 space_crew.validate_member) v)
  = map (cons (Key "crew")) (space_crew.crew_reported v).
Proof.
  unfold required. rewrite locs_at_loc.
  destruct v as [l|]; [|reflexivity].
  now rewrite locs_crew.
Qed.

Lemma mission_locs kw :
  locs (space_crew.validate_fields kw) = space_crew.reported kw.
Proof.
  unfold space_crew.validate_fields, space_crew.reported.
  locs_fields. rewrite locs_required_crew. same_paths.
Qed.

Lemma validate_fields_locs raw :
  locs (validate_fields raw) = reported raw.
Proof.
  destruct raw as [kw|kw|kw|kw]; simpl;
    [ rewrite <- station_locs | rewrite <- contact_locs
    | rewrite <- member_locs | rewrite <- mission_locs ];
    match goal with |- locs (wrap _ ?r) = _ => now destruct r end.
Qed.

(** No location is named twice. *)

Lemma in_under p entries :
  In p (under entries) ->
  exists k q, p = k :: q /\ In k (map fst entries).
Proof.
  unfold under. intros H. apply in_flat_map in H.
  destruct H as (e & He & Hp). apply in_map_iff in Hp.
  destruct Hp as (q & <- & _). exists (fst e), q.
  split; [reflexivity|]. now apply in_map.
Qed.

Lemma NoDup_under entries :
  NoDup (map fst entries) ->
  Forall (fun e => NoDup (snd e)) entries ->
  NoDup (under entries).
Proof.
  induction entries as [|[k ps] rest IH]; intros Hk Hp.
  - constructor.
  - inversion Hk as [|? ? Hnotin Hk']; subst.
    inversion Hp as [|? ? Hps Hp']; subst.
    change (under ((k, ps) :: rest)) with (map (cons k) ps ++ under rest).
    apply NoDup_app.
    + apply NoDup_map_NoDup_ForallPairs; [|assumption].
      intros x y _ _ E. now inversion E.
    + now apply IH.
    + intros p Hin1 Hin2. apply in_map_iff in Hin1.
      destruct Hin1 as (q & <- & _).
      apply in_under in Hin2. destruct Hin2 as (k' & q' & E & Hin).
      inversion E; subst. contradiction.
Qed.

Lemma NoDup_here b : NoDup (here b).
Proof.
  destruct b; simpl; repeat constructor. intros [].
Qed.

Lemma NoDup_offends_required {A : Type} (satisfied : A -> bool) v :
  NoDup (offends_required satisfied v).
Proof. destruct v; apply NoDup_here. Qed.

Lemma NoDup_offends_optional {A : Type} (satisfied : A -> bool) v :
  NoDup (offends_optional satisfied v).
Proof. destruct v; apply NoDup_here. Qed.

Ltac distinct_keys :=
  cbn [map fst];
  repeat (constructor; [cbn [In]; intuition discriminate|]);
  constructor.

Ltac each_nodup :=
  repeat (constructor;
          [cbn [snd];
           first [ apply NoDup_offends_required
                 | apply NoDup_offends_optional
                 | assumption ] |]);
  constructor.

Lemma NoDup_station_offending kw : NoDup (space_station.offending kw).
Proof.
  unfold space_station.offending.
  apply NoDup_under; [distinct_keys | each_nodup].
Qed.

Lemma NoDup_contact_offending kw : NoDup (alien_contact.offending kw).
Proof.
  unfold alien_contact.offending.
  apply NoDup_under; [distinct_keys | each_nodup].
Qed.

Lemma NoDup_member_offending kw : NoDup (space_crew.member_offending kw).
Proof.
  unfold space_crew.member_offending.
  apply NoDup_under; [distinct_keys | each_nodup].
Qed.

Lemma indexed_keys {A : Type} i (l : list A) :
  map fst (indexed i l) = map Idx (seq i (length l)).
Proof.
  unfold indexed. revert i.
  induction l as [|x xs IH]; intros i; [reflexivity|].
  cbn [length seq map combine fst]. now rewrite IH.
Qed.

Lemma indexed_values {A : Type} i (l : list A) :
  map snd (indexed i l) = l.
Proof.
  unfold indexed. revert i.
  induction l as [|x xs IH]; intros i; [reflexivity|].
  cbn [length seq map combine snd]. now rewrite IH.
Qed.

Lemma NoDup_crew_reported v : NoDup (space_crew.crew_reported v).
Proof.
  unfold space_crew.crew_reported.
  destruct v as [l|]; [|apply NoDup_here].
  destruct (size_within 1 12 l); [|apply NoDup_here].
  apply NoDup_under.
  - rewrite indexed_keys.
    apply NoDup_map_NoDup_ForallPairs; [|apply seq_NoDup].
    intros x y _ _ E. now inversion E.
  - apply Forall_forall. intros e He.
    apply (in_map snd) in He. rewrite indexed_values in He.
    apply in_map_iff in He. destruct He as (kw & <- & _).
    apply NoDup_member_offending.
Qed.

Lemma NoDup_mission_reported kw : NoDup (space_crew.reported kw).
Proof.
  unfold space_crew.reported.
  pose proof (NoDup_crew_reported (space_crew.kw_crew kw)).
  apply NoDup_under; [distinct_keys | each_nodup].
Qed.

Lemma NoDup_reported raw : NoDup (reported raw).
Proof.
  destruct raw; simpl;
    auto using NoDup_station_offending, NoDup_contact_offending,
      NoDup_member_offending, NoDup_mission_reported.
Qed.

Lemma validate_field_errors raw report :
  validate_fields raw = Error report -> validate raw = Error report.
Proof.
  destruct raw as [kw|kw|kw|kw]; simpl; auto.
  - unfold alien_contact.validate.
    destruct (alien_contact.validate_fields kw); simpl; congruence.
  - unfold space_crew.validate.
    destruct (space_crew.validate_fields kw); simpl; congruence.
Qed.

Lemma station_two_faults kw st :
  space_station.validate kw = Ok st ->
  space_station.validate
    (space_station.with_crew_size (Some 25)
       (space_station.with_power_level (Some 150%Q) kw))
  = Error [ {| v_loc := [Key "crew_size"]; v_type := less_than_equal |};
            {| v_loc := [Key "power_level"]; v_type := less_than_equal |} ].
Proof.
  unfold space_station.validate. intros H. invert_collect. subst.
  cbn [space_station.with_crew_size space_station.with_power_level
       space_station.kw_station_id
       space_station.kw_name space_station.kw_crew_size
       space_station.kw_power_level space_station.kw_oxygen_level
       space_station.kw_last_maintenance space_station.kw_is_operational
       space_station.kw_notes].
  repeat match goal with
         | E : _ = Ok _ |- _ => rewrite E; clear E
         end.
  reflexivity.
Qed.

(** The reported locations are the offending fields that are looked
    into. *)

Lemma filter_all {A : Type} (f : A -> bool) (l : list A) :
  (forall x, In x l -> f x = true) -> filter f l = l.
Proof.
  induction l as [|x xs IH]; intros H; [reflexivity|].
  cbn [filter]. rewrite (H x (or_introl eq_refl)).
  rewrite IH; [reflexivity|]. intros y Hy. apply H. now right.
Qed.

Lemma filter_none {A : Type} (f : A -> bool) (l : list A) :
  (forall x, In x l -> f x = false) -> filter f l = [].
Proof.
  induction l as [|x xs IH]; intros H; [reflexivity|].
  cbn [filter]. rewrite (H x (or_introl eq_refl)).
  apply IH. intros y Hy. apply H. now right.
Qed.

Lemma filter_here raw field b :
  filter (examined raw) (map (cons (Key field)) (here b))
  = map (cons (Key field)) (here b).
Proof.
  destruct b; [|reflexivity]. cbn [here map filter].
  unfold examined. cbn [element_of_crew negb]. now rewrite orb_true_r.
Qed.

Lemma filter_required {A : Type} raw field (satisfied : A -> bool) v :
  filter (examined raw)
    (map (cons (Key field)) (offends_required satisfied v))
  = map (cons (Key field)) (offends_required satisfied v).
Proof. destruct v; apply filter_here. Qed.

Lemma filter_optional {A : Type} raw field (satisfied : A -> bool) v :
  filter (examined raw)
    (map (cons (Key field)) (offends_optional satisfied v))
  = map (cons (Key field)) (offends_optional satisfied v).
Proof. destruct v; apply filter_here. Qed.

Lemma elements_are_of_crew {A : Type} i (l : list (list path)) p :
  In p (map (cons (Key "crew")) (under (indexed i l))) ->
  element_of_crew p = true.
Proof.
  intros H. apply in_map_iff in H. destruct H as (q & <- & Hq).
  apply in_under in Hq. destruct Hq as (k & q' & -> & Hk).
  rewrite indexed_keys in Hk. apply in_map_iff in Hk.
  destruct Hk as (n & <- & _). reflexivity.
Qed.

Lemma crew_reported_examined kw :
  map (cons (Key "crew")) (space_crew.crew_reported (space_crew.kw_crew kw))
  = filter (examined (MissionInput kw))
      (map (cons (Key "crew"))
         (space_crew.crew_offending (space_crew.kw_crew kw))).
Proof.
  unfold examined, crew_within_max, space_crew.crew_reported,
    space_crew.crew_offending, size_within.
  destruct (space_crew.kw_crew kw) as [l|]; [|reflexivity].
  destruct (Z.leb_spec (Z.of_nat (length l)) 12) as [Hle|Hgt].
  - rewrite filter_all by reflexivity. rewrite andb_true_r.
    destruct (Z.leb_spec 1 (Z.of_nat (length l))); [reflexivity|].
    destruct l; [reflexivity | simpl length in *; lia].
  - rewrite andb_false_r. cbn [negb here app map filter element_of_crew].
    cbn [orb]. rewrite filter_none; [reflexivity|].
    intros p Hp. apply (elements_are_of_crew (A:=unit)) in Hp.
    now rewrite Hp.
Qed.

Lemma mission_reported_examined kw :
  space_crew.reported kw
  = filter (examined (MissionInput kw)) (space_crew.offending kw).
Proof.
  unfold space_crew.reported, space_crew.offending, under.
  cbn [flat_map fst snd]. rewrite !filter_app.
  rewrite !filter_required, !filter_optional, <- crew_reported_examined.
  reflexivity.
Qed.

Lemma reported_examined raw :
  reported raw = filter (examined raw) (offending raw).
Proof.
  destruct raw; try (symmetry; apply filter_all; reflexivity).
  apply mission_reported_examined.
Qed.

Lemma reported_within_max raw :
  crew_within_max raw = true -> reported raw = offending raw.
Proof.
  intros H. rewrite reported_examined. apply filter_all.
  intros p _. unfold examined. now rewrite H.
Qed.

Lemma overlong_crew_reported kw l :
  space_crew.kw_crew kw = Some l ->
  (Z.of_nat (length l) <=? 12) = false ->
  In [Key "crew"] (space_crew.reported kw).
Proof.
  intros Hc Hl. unfold space_crew.reported, under.
  cbn [flat_map fst snd]. rewrite !in_app_iff.
  do 5 right. left. rewrite Hc.
  unfold space_crew.crew_reported, size_within. rewrite Hl, andb_false_r.
  now left.
Qed.

Lemma reported_nil_iff raw : reported raw = [] <-> offending raw = [].
Proof.
  split.
  - intros H. destruct (crew_within_max raw) eqn:E.
    + now rewrite <- (reported_within_max raw E).
    + exfalso. destruct raw as [kw|kw|kw|kw]; try discriminate.
      cbn [crew_within_max] in E.
      destruct (space_crew.kw_crew kw) as [l|] eqn:Hc; [|discriminate].
      pose proof (overlong_crew_reported kw l Hc E) as Hin.
      cbn [reported] in H. rewrite H in Hin. contradiction.
  - intros H. rewrite reported_examined, H. reflexivity.
Qed.

(** C3, as the code has it: the field checks are exhaustive over the
    fields that are looked into. When two or more fields of an input
    offend, the construction is refused and its report holds one entry per
    offending field, in declaration order, none twice, except that the
    elements of a crew list of more than 12 elements are not looked into:
    the list then gets its own entry and the fields of its elements get
    none. In particular a station that is otherwise accepted, given
    [crew_size=25] and [power_level=150.0], is refused with exactly two
    entries, one at [crew_size] and one at [power_level]. *)
Theorem every_offending_field_reported
  (raw : raw_input)
  (Htwo : (2 <= length (offending raw))%nat) :
  exists report,
    validate raw = Error report
    /\ map v_loc report = filter (examined raw) (offending raw)
    /\ (crew_within_max raw = true ->
        map v_loc report = offending raw
        /\ length report = length (offending raw))
    /\ NoDup (map v_loc report)
    /\ (forall kw st,
          space_station.validate kw = Ok st ->
          raw = StationInput
                  (space_station.with_crew_size (Some 25)
                     (space_station.with_power_level (Some 150%Q) kw)) ->
          report
          = [ {| v_loc := [Key "crew_size"]; v_type := less_than_equal |};
              {| v_loc := [Key "power_level"];
                 v_type := less_than_equal |} ]).
Proof.
  pose proof (validate_fields_locs raw) as Hlocs.
  destruct (validate_fields raw) as [self|report] eqn:E.
  - unfold locs in Hlocs. cbn [errors_of map] in Hlocs. symmetry in Hlocs.
    apply reported_nil_iff in Hlocs. rewrite Hlocs in Htwo.
    simpl in Htwo. lia.
  - exists report. unfold locs in Hlocs. cbn [errors_of] in Hlocs.
    pose proof (validate_field_errors raw report E) as Hv.
    split; [exact Hv|].
    split; [rewrite Hlocs; apply reported_examined|].
    split.
    { intros Hmax. rewrite <- (reported_within_max raw Hmax), <- Hlocs.
      split; [reflexivity | symmetry; apply length_map]. }
    split; [rewrite Hlocs; apply NoDup_reported|].
    intros kw st Hok ->. simpl in Hv.
    rewrite (station_two_faults kw st Hok) in Hv. simpl in Hv. congruence.
Qed.

Lemma every_offending_field_reported_witness :
  offending
    (StationInput
       (space_station.with_crew_size (Some 25)
          (space_station.with_power_level (Some 150%Q) station_ok)))
  = [ [Key "crew_size"]; [Key "power_level"] ]
  /\ validate
       (StationInput
          (space_station.with_crew_size (Some 25)
             (space_station.with_power_level (Some 150%Q) station_ok)))
     = Error [ {| v_loc := [Key "crew_size"]; v_type := less_than_equal |};
               {| v_loc := [Key "power_level"];
                  v_type := less_than_equal |} ].
Proof.
  split; [reflexivity|].
  destruct (every_offending_field_reported
              (StationInput
                 (space_station.with_crew_size (Some 25)
                    (space_station.with_power_level (Some 150%Q)
                       station_ok))))
    as (report & Hv & _ & _ & _ & Hex).
  - vm_compute. apply le_n.
  - rewrite Hv. f_equal. apply (Hex station_ok _ eq_refl). reflexivity.
Defined.

(** A crew of 13 with two members aged 17: three fields offend, the crew
    by its size and the two ages, and the report holds the single entry of
    the crew. *)
Lemma every_offending_field_counterexample :
  offending (MissionInput mission_overlong)
  = [ [Key "crew"];
      [Key "crew"; Idx 3; Key "age"];
      [Key "crew"; Idx 7; Key "age"] ]
  /\ validate (MissionInput mission_overlong)
     = Error [ {| v_loc := [Key "crew"]; v_type := too_long |} ].
Proof.
  split; reflexivity.
Qed.

(** * Further properties of the three modules *)

(** ** What each field check accepts *)

Lemma str_constrained_iff lo hi s x :
  str_constrained (Some lo) (Some hi) s = Ok x
  <-> x = s /\ lo <= len s <= hi.
Proof.
  unfold str_constrained.
  destruct (Z.ltb_spec (len s) lo); [split; [discriminate | intros [_ ?]; lia]|].
  destruct (Z.ltb_spec hi (len s)); [split; [discriminate | intros [_ ?]; lia]|].
  split; [|intros [-> _]; reflexivity].
  intros E. inversion E; subst. split; [reflexivity | lia].
Qed.

Lemma str_max_iff hi s x :
  str_constrained None (Some hi) s = Ok x <-> x = s /\ len s <= hi.
Proof.
  unfold str_constrained.
  destruct (Z.ltb_spec hi (len s)); [split; [discriminate | intros [_ ?]; lia]|].
  split; [|intros [-> _]; reflexivity].
  intros E. inversion E; subst. split; [reflexivity | lia].
Qed.

Lemma int_constrained_iff ge le v x :
  int_constrained ge le v = Ok x <-> x = v /\ ge <= v <= le.
Proof.
  split; [apply int_constrained_ok|].
  intros [-> H]. now apply int_constrained_within.
Qed.

Lemma Qlt_bool_true_iff (x y : Q) : Qlt_bool x y = true <-> (x < y)%Q.
Proof.
  unfold Qlt_bool. rewrite negb_true_iff. split.
  - intros H. apply Qnot_le_lt. intros Hle.
    apply Qle_bool_iff in Hle. congruence.
  - intros H. destruct (Qle_bool y x) eqn:E; [|reflexivity].
    apply Qle_bool_iff in E. exfalso. eapply Qlt_not_le; eauto.
Qed.

Lemma float_constrained_iff ge le v x :
  float_constrained ge le v = Ok x
  <-> x = v /\ (ge <= v)%Q /\ (v <= le)%Q.
Proof.
  unfold float_constrained.
  destruct (Qlt_bool v ge) eqn:E1.
  { apply Qlt_bool_true_iff in E1. split; [discriminate|].
    intros (_ & H & _). exfalso. eapply Qlt_not_le; eauto. }
  destruct (Qlt_bool le v) eqn:E2.
  { apply Qlt_bool_true_iff in E2. split; [discriminate|].
    intros (_ & _ & H). exfalso. eapply Qlt_not_le; eauto. }
  apply Qlt_bool_false_iff in E1, E2.
  split; [intros E; inversion E; subst; auto | intros (-> & _); reflexivity].
Qed.

Lemma required_iff {A B : Type} field (validator : A -> result B) v b :
  required field validator v = Ok b
  <-> exists a, v = Some a /\ validator a = Ok b.
Proof.
  split; [apply required_ok|].
  intros (a & -> & H). unfold required. now rewrite H.
Qed.

Lemma required_any_iff {A : Type} field (v : option A) b :
  required field any v = Ok b <-> v = Some b.
Proof.
  rewrite required_iff. unfold any. split.
  - intros (a & -> & E). now inversion E.
  - intros ->. now exists b.
Qed.

Lemma defaulted_any_iff {A : Type} field (d : A) v x :
  defaulted field d any v = Ok x
  <-> x = match v with Some a => a | None => d end.
Proof.
  split; [apply defaulted_any|].
  intros ->. unfold defaulted, any. now destruct v.
Qed.

Lemma optional_str_iff field hi v x :
  optional field (str_constrained None (Some hi)) v = Ok x
  <-> x = v /\ (forall s, v = Some s -> len s <= hi).
Proof.
  unfold optional. destruct v as [s|].
  - destruct (str_constrained None (Some hi) s) as [y|e] eqn:E.
    + apply str_max_iff in E. destruct E as [-> Hs]. cbn [collect at_loc].
      split.
      * intros H. inversion H. split; [reflexivity|].
        intros s' Hs'. inversion Hs'; subst. exact Hs.
      * intros [-> _]. reflexivity.
    + cbn [collect at_loc]. split; [discriminate|].
      intros [_ H]. specialize (H s eq_refl).
      assert (Hok : str_constrained None (Some hi) s = Ok s)
        by (apply str_max_iff; auto).
      congruence.
  - cbn [at_loc]. split.
    + intros H. inversion H. split; [reflexivity | discriminate].
    + intros [-> _]. reflexivity.
Qed.

Lemma collect_iff {A B : Type} (f : result (A -> B)) (x : result A) (b : B) :
  f <*> x = Ok b <-> exists g a, f = Ok g /\ x = Ok a /\ b = g a.
Proof.
  split; [apply collect_ok|].
  intros (g & a & -> & -> & ->). reflexivity.
Qed.

Ltac break_up :=
  repeat match goal with
    | H : exists _, _ |- _ => destruct H
    | H : _ /\ _ |- _ => destruct H
    end.

(** ** Accepted stations *)

(** X1: a station is accepted exactly when every required keyword is given
    and every value is within its bounds, both ends included; the instance
    then carries the given values, [is_operational] being [True] and
    [notes] being [None] when left out. *)
Theorem station_accepted_iff
  (kw : space_station.Kwargs) (st : space_station.SpaceStation) :
  space_station.validate kw = Ok st
  <-> (space_station.kw_station_id kw = Some (space_station.station_id st)
       /\ 3 <= len (space_station.station_id st) <= 10)
      /\ (space_station.kw_name kw = Some (space_station.name st)
          /\ 1 <= len (space_station.name st) <= 50)
      /\ (space_station.kw_crew_size kw = Some (space_station.crew_size st)
          /\ 1 <= space_station.crew_size st <= 20)
      /\ (space_station.kw_power_level kw
          = Some (space_station.power_level st)
          /\ (0 <= space_station.power_level st)%Q
          /\ (space_station.power_level st <= 100)%Q)
      /\ (space_station.kw_oxygen_level kw
          = Some (space_station.oxygen_level st)
          /\ (0 <= space_station.oxygen_level st)%Q
          /\ (space_station.oxygen_level st <= 100)%Q)
      /\ space_station.kw_last_maintenance kw
         = Some (space_station.last_maintenance st)
      /\ space_station.is_operational st
         = match space_station.kw_is_operational kw with
           | Some b => b
           | None => true
           end
      /\ (space_station.notes st = space_station.kw_notes kw
          /\ forall s, space_station.kw_notes kw = Some s -> len s <= 200).
Proof.
  unfold space_station.validate.
  repeat setoid_rewrite collect_iff.
  repeat setoid_rewrite required_iff.
  setoid_rewrite defaulted_any_iff. setoid_rewrite optional_str_iff.
  repeat setoid_rewrite str_constrained_iff.
  repeat setoid_rewrite int_constrained_iff.
  repeat setoid_rewrite float_constrained_iff.
  unfold any. split.
  - intros H. break_up. subst.
    repeat match goal with
           | E : Ok _ = Ok _ |- _ => inversion E; subst; clear E
           end.
    cbn. tauto.
  - intros H. destruct st. cbn in H. break_up. subst.
    repeat eexists; eauto.
Qed.

(** ** Accepted contact reports *)

Lemma prefix_app (p s : string) :
  String.prefix p s = true <-> exists rest, s = (p ++ rest)%string.
Proof.
  revert s. induction p as [|a p IH]; intros s; simpl.
  - split; [intros _; now exists s | now destruct s].
  - destruct s as [|b s]; simpl;
      [split; [discriminate | intros (r & Hr); discriminate]|].
    destruct (Ascii.ascii_dec a b) as [->|Hab].
    + split.
      * intros H. apply IH in H. destruct H as (r & ->). now exists r.
      * intros (r & Hr). apply IH. exists r. now inversion Hr.
    + split; [discriminate|]. intros (r & Hr).
      inversion Hr. subst. exfalso. now apply Hab.
Qed.

Lemma ContactType_eqb_eq a b :
  alien_contact.ContactType_eqb a b = true <-> a = b.
Proof. destruct a, b; simpl; split; congruence. Qed.

Lemma exec_return_iff {A : Type} (gs : list (guard A)) (self : A) :
  exec gs self = Return self <-> Forall (fun g => fires g self = false) gs.
Proof.
  induction gs as [|g rest IH]; simpl.
  - split; [constructor | reflexivity].
  - destruct (fires g self) eqn:E.
    + split; [discriminate|]. intros H. inversion H. congruence.
    + rewrite IH. split; [now constructor | intros H; now inversion H].
Qed.

Lemma model_validator_after_iff {A : Type} (gs : list (guard A)) r (x : A) :
  model_validator_after (exec gs) r = Ok x
  <-> r = Ok x /\ Forall (fun g => fires g x = false) gs.
Proof.
  split.
  - intros H. apply model_validator_after_ok in H.
    destruct H as (self & -> & Hb).
    assert (x = self) by (now apply exec_return in Hb). subst.
    split; [reflexivity|]. now apply exec_return_iff.
  - intros [-> H]. apply exec_return_iff in H.
    unfold model_validator_after. now rewrite H.
Qed.

Lemma truthy_iff (v : option string) :
  alien_contact.truthy v = true <-> exists a rest, v = Some (String a rest).
Proof.
  destruct v as [[|a rest]|]; simpl; split;
    try discriminate; try (intros (? & ? & ?); discriminate).
  - intros _. now exists a, rest.
  - reflexivity.
Qed.

(** X2: the field checks of a contact report pass exactly when every
    required keyword is given and every value is within its bounds, both
    ends included; the instance then carries the given values,
    [message_received] being [None] and [is_verified] being [False] when
    left out. *)
Theorem contact_fields_accepted_iff
  (kw : alien_contact.Kwargs) (c : alien_contact.AlienContact) :
  alien_contact.validate_fields kw = Ok c
  <-> (alien_contact.kw_contact_id kw = Some (alien_contact.contact_id c)
       /\ 5 <= len (alien_contact.contact_id c) <= 15)
      /\ alien_contact.kw_timestamp kw = Some (alien_contact.timestamp c)
      /\ (alien_contact.kw_location kw = Some (alien_contact.location c)
          /\ 3 <= len (alien_contact.location c) <= 100)
      /\ alien_contact.kw_contact_type kw
         = Some (alien_contact.contact_type c)
      /\ (alien_contact.kw_signal_strength kw
          = Some (alien_contact.signal_strength c)
          /\ (0 <= alien_contact.signal_strength c)%Q
          /\ (alien_contact.signal_strength c <= 10)%Q)
      /\ (alien_contact.kw_duration_minutes kw
          = Some (alien_contact.duration_minutes c)
          /\ 1 <= alien_contact.duration_minutes c <= 1440)
      /\ (alien_contact.kw_witness_count kw
          = Some (alien_contact.witness_count c)
          /\ 1 <= alien_contact.witness_count c <= 100)
      /\ (alien_contact.message_received c
          = alien_contact.kw_message_received kw
          /\ forall s, alien_contact.kw_message_received kw = Some s ->
                       len s <= 500)
      /\ alien_contact.is_verified c
         = match alien_contact.kw_is_verified kw with
           | Some b => b
           | None => false
           end.
Proof.
  unfold alien_contact.validate_fields.
  repeat setoid_rewrite collect_iff.
  repeat setoid_rewrite required_iff.
  setoid_rewrite defaulted_any_iff. setoid_rewrite optional_str_iff.
  repeat setoid_rewrite str_constrained_iff.
  repeat setoid_rewrite int_constrained_iff.
  repeat setoid_rewrite float_constrained_iff.
  unfold any. split.
  - intros H. break_up. subst.
    repeat match goal with
           | E : Ok _ = Ok _ |- _ => inversion E; subst; clear E
           end.
    cbn. tauto.
  - intros H. destruct c. cbn in H. break_up. subst.
    repeat eexists; eauto.
Qed.

(** X3: a contact report is accepted exactly when its field checks pass and
    its identifier starts with "AC", a physical contact is verified, a
    telepathic contact has at least 3 witnesses, and a signal strictly
    above 7.0 comes with a received message that is not empty. *)
Theorem contact_accepted_iff
  (kw : alien_contact.Kwargs) (c : alien_contact.AlienContact) :
  alien_contact.validate kw = Ok c
  <-> alien_contact.validate_fields kw = Ok c
      /\ (exists rest, alien_contact.contact_id c = ("AC" ++ rest)%string)
      /\ (alien_contact.contact_type c = alien_contact.physical ->
          alien_contact.is_verified c = true)
      /\ (alien_contact.contact_type c = alien_contact.telepathic ->
          3 <= alien_contact.witness_count c)
      /\ ((7 < alien_contact.signal_strength c)%Q ->
          exists a rest,
            alien_contact.message_received c = Some (String a rest)).
Proof.
  rewrite contact_validate_rules. unfold construct.
  cbn [fields after alien_contact.AlienContact_model].
  rewrite model_validator_after_iff. unfold alien_contact.rules.
  repeat rewrite Forall_cons_iff.
  cbn [fires alien_contact.prefix_rule alien_contact.physical_rule
       alien_contact.telepathic_rule alien_contact.signal_rule].
  rewrite negb_false_iff. unfold alien_contact.startswith.
  rewrite prefix_app. repeat rewrite andb_false_iff.
  rewrite !negb_false_iff.
  rewrite <- !not_true_iff_false.
  rewrite !ContactType_eqb_eq, Qlt_bool_true_iff, truthy_iff.
  rewrite Z.ltb_lt.
  split; intros (Hf & Hp & H2 & H3 & H4); (split; [exact Hf|]);
    (split; [exact Hp|]).
  - destruct H4 as (H4 & _). repeat split.
    + intros E. destruct H2 as [H2|H2]; [contradiction | exact H2].
    + intros E. destruct H3 as [H3|H3]; [contradiction | lia].
    + intros E. destruct H4 as [H4|H4]; [contradiction | exact H4].
  - split; [|split; [|split; [|constructor]]].
    + destruct (alien_contact.contact_type c); try (left; discriminate).
      right. now apply H2.
    + destruct (alien_contact.contact_type c); try (left; discriminate).
      right. specialize (H3 eq_refl). lia.
    + destruct (Qlt_le_dec 7 (alien_contact.signal_strength c)) as [Hlt|Hle].
      * right. now apply H4.
      * left. intros Hlt. eapply Qlt_not_le; eauto.
Qed.

(** ** Accepted crew members and missions *)

(** X4: a crew member is accepted exactly when every required keyword is
    given and every value is within its bounds, both ends included; the
    instance then carries the given values, [is_active] being [True] when
    left out. *)
Theorem member_accepted_iff
  (kw : space_crew.MemberKwargs) (m : space_crew.CrewMember) :
  space_crew.validate_member kw = Ok m
  <-> (space_crew.kw_member_id kw = Some (space_crew.member_id m)
       /\ 3 <= len (space_crew.member_id m) <= 10)
      /\ (space_crew.kw_name kw = Some (space_crew.name m)
          /\ 2 <= len (space_crew.name m) <= 50)
      /\ space_crew.kw_rank kw = Some (space_crew.rank m)
      /\ (space_crew.kw_age kw = Some (space_crew.age m)
          /\ 18 <= space_crew.age m <= 80)
      /\ (space_crew.kw_specialization kw
          = Some (space_crew.specialization m)
          /\ 3 <= len (space_crew.specialization m) <= 30)
      /\ (space_crew.kw_years_experience kw
          = Some (space_crew.years_experience m)
          /\ 0 <= space_crew.years_experience m <= 50)
      /\ space_crew.is_active m
         = match space_crew.kw_is_active kw with
           | Some b => b
           | None => true
           end.
Proof.
  unfold space_crew.validate_member.
  repeat setoid_rewrite collect_iff.
  repeat setoid_rewrite required_iff.
  setoid_rewrite defaulted_any_iff.
  repeat setoid_rewrite str_constrained_iff.
  repeat setoid_rewrite int_constrained_iff.
  unfold any. split.
  - intros H. break_up. subst.
    repeat match goal with
           | E : Ok _ = Ok _ |- _ => inversion E; subst; clear E
           end.
    cbn. tauto.
  - intros H. destruct m. cbn in H. break_up. subst.
    repeat eexists; eauto.
Qed.

Lemma validate_items_all {A B : Type} (item : A -> result B) i l out :
  Forall2 (fun x y => item x = Ok y) l out ->
  space_crew.validate_items item i l = Ok out.
Proof.
  intros H. revert i.
  induction H as [|x y xs ys Hxy Hrest IH]; intros i; [reflexivity|].
  cbn [space_crew.validate_items]. rewrite Hxy, IH. reflexivity.
Qed.

Lemma list_constrained_iff {A B : Type} lo hi (item : A -> result B) l out :
  space_crew.list_constrained lo hi item l = Ok out
  <-> Forall2 (fun x y => item x = Ok y) l out
      /\ lo <= Z.of_nat (length l) <= hi.
Proof.
  split.
  - intros H. split; [eapply list_constrained_ok; eauto|].
    unfold space_crew.list_constrained in H.
    destruct (Z.ltb_spec hi (Z.of_nat (length l))); [discriminate|].
    destruct (space_crew.validate_items item 0 l) as [out'|] eqn:E;
      [|discriminate].
    rewrite (validate_items_length _ _ _ _ E) in H.
    destruct (Z.ltb_spec (Z.of_nat (length l)) lo); [discriminate|]. lia.
  - intros [Hall Hsize]. unfold space_crew.list_constrained.
    destruct (Z.ltb_spec hi (Z.of_nat (length l))); [lia|].
    rewrite (validate_items_all item 0 l out Hall).
    rewrite <- (Forall2_length Hall).
    destruct (Z.ltb_spec (Z.of_nat (length l)) lo); [lia|]. reflexivity.
Qed.

(** X5: the field checks of a mission pass exactly when every required
    keyword is given, every value is within its bounds, the crew has from
    1 to 12 elements and each element is accepted as a crew member, the
    instance holding the accepted members in the same order;
    [mission_status] is "planned" when left out. *)
Theorem mission_fields_accepted_iff
  (kw : space_crew.Kwargs) (m : space_crew.SpaceMission) :
  space_crew.validate_fields kw = Ok m
  <-> (space_crew.kw_mission_id kw = Some (space_crew.mission_id m)
       /\ 5 <= len (space_crew.mission_id m) <= 15)
      /\ (space_crew.kw_mission_name kw = Some (space_crew.mission_name m)
          /\ 3 <= len (space_crew.mission_name m) <= 100)
      /\ (space_crew.kw_destination kw = Some (space_crew.destination m)
          /\ 3 <= len (space_crew.destination m) <= 50)
      /\ space_crew.kw_launch_date kw = Some (space_crew.launch_date m)
      /\ (space_crew.kw_duration_days kw = Some (space_crew.duration_days m)
          /\ 1 <= space_crew.duration_days m <= 3650)
      /\ (exists l,
            space_crew.kw_crew kw = Some l
            /\ Forall2 (fun x y => space_crew.validate_member x = Ok y)
                 l (space_crew.crew m)
            /\ 1 <= Z.of_nat (length l) <= 12)
      /\ space_crew.mission_status m
         = match space_crew.kw_mission_status kw with
           | Some s => s
           | None => "planned"
           end
      /\ (space_crew.kw_budget_millions kw
          = Some (space_crew.budget_millions m)
          /\ (1 <= space_crew.budget_millions m)%Q
          /\ (space_crew.budget_millions m <= 10000)%Q).
Proof.
  unfold space_crew.validate_fields. split.
  - intros H. invert_collect.
    repeat match goal with
      | H : required _ any _ = Ok _ |- _ => apply required_any_iff in H
      | H : required _ _ _ = Ok _ |- _ =>
          apply required_iff in H; destruct H as (? & ? & H)
      | H : defaulted _ _ any _ = Ok _ |- _ => apply defaulted_any_iff in H
      | H : str_constrained _ _ _ = Ok _ |- _ =>
          apply str_constrained_iff in H; destruct H as (? & ?)
      | H : int_constrained _ _ _ = Ok _ |- _ =>
          apply int_constrained_iff in H; destruct H as (? & ?)
      | H : float_constrained _ _ _ = Ok _ |- _ =>
          apply float_constrained_iff in H; destruct H as (? & ? & ?)
      | H : space_crew.list_constrained _ _ _ _ = Ok _ |- _ =>
          apply list_constrained_iff in H; destruct H as (? & ?)
      end.
    subst. cbn.
    repeat match goal with
           | |- _ /\ _ => split
           | |- exists _, _ => eexists
           end; eauto; lia.
  - intros H. destruct m. cbn in H. break_up. subst.
    repeat setoid_rewrite collect_iff.
    repeat setoid_rewrite required_iff.
    setoid_rewrite defaulted_any_iff.
    setoid_rewrite list_constrained_iff.
    repeat setoid_rewrite str_constrained_iff.
    repeat setoid_rewrite int_constrained_iff.
    repeat setoid_rewrite float_constrained_iff.
    unfold any. repeat eexists; eauto.
Qed.

Lemma Rank_eqb_eq a b : space_crew.Rank_eqb a b = true <-> a = b.
Proof. destruct a, b; simpl; split; congruence. Qed.

Lemma has_leader_iff (members : list space_crew.CrewMember) :
  existsb space_crew.is_leader members = true
  <-> exists member,
        In member members
        /\ (space_crew.rank member = space_crew.captain
            \/ space_crew.rank member = space_crew.commander).
Proof.
  rewrite existsb_exists. unfold space_crew.is_leader.
  split; intros (x & Hin & H); exists x; (split; [exact Hin|]).
  - apply orb_true_iff in H. now rewrite !Rank_eqb_eq in H.
  - apply orb_true_iff. now rewrite !Rank_eqb_eq.
Qed.

Lemma all_active_iff (members : list space_crew.CrewMember) :
  existsb (fun member => negb (space_crew.is_active member)) members = false
  <-> forall member, In member members -> space_crew.is_active member = true.
Proof.
  induction members as [|x xs IH]; simpl.
  - split; [intros _ ? [] | reflexivity].
  - rewrite orb_false_iff, negb_false_iff, IH. split.
    + intros [Hx Hxs] member [<-|Hin]; auto.
    + intros H. split; auto.
Qed.

(** X6: a mission is accepted exactly when its field checks pass, its
    identifier starts with "M", some member of the crew is a captain or a
    commander, every member is active and, when the mission lasts more
    than 365 days, twice the number of members with at least 5 years of
    experience is at least the size of the crew. *)
Theorem mission_accepted_iff
  (kw : space_crew.Kwargs) (m : space_crew.SpaceMission) :
  space_crew.validate kw = Ok m
  <-> space_crew.validate_fields kw = Ok m
      /\ (exists rest, space_crew.mission_id m = ("M" ++ rest)%string)
      /\ (exists member,
            In member (space_crew.crew m)
            /\ (space_crew.rank member = space_crew.captain
                \/ space_crew.rank member = space_crew.commander))
      /\ (365 < space_crew.duration_days m ->
          Z.of_nat (length (space_crew.crew m))
          <= 2 * Z.of_nat
                 (length
                    (filter
                       (fun member =>
                          5 <=? space_crew.years_experience member)
                       (space_crew.crew m))))
      /\ (forall member,
            In member (space_crew.crew m) ->
            space_crew.is_active member = true).
Proof.
  rewrite mission_validate_rules. unfold construct.
  cbn [fields after space_crew.SpaceMission_model].
  rewrite model_validator_after_iff. unfold space_crew.rules.
  repeat rewrite Forall_cons_iff.
  cbn [fires space_crew.prefix_rule space_crew.leader_rule
       space_crew.experience_rule space_crew.active_rule].
  rewrite !negb_false_iff. unfold space_crew.startswith.
  rewrite prefix_app, has_leader_iff, all_active_iff.
  rewrite andb_false_iff, Qlt_bool_false_iff, half_crew_le.
  rewrite <- count_experienced_length.
  rewrite <- not_true_iff_false, Z.ltb_lt.
  split; intros (Hf & Hp & Hl & He & Ha); repeat (split; [assumption|]).
  - destruct Ha as [Ha _]. split; [|exact Ha].
    intros Hlong. destruct He as [He|He]; [contradiction | exact He].
  - split; [|split; [exact Ha | constructor]].
    destruct (Z.lt_ge_cases 365 (space_crew.duration_days m)) as [Hlong|Hs].
    + right. now apply He.
    + left. lia.
Qed.

(** ** Shape of the reports *)

Lemma field_result_collect {A B : Type} (f : result (A -> B)) (x : result A) :
  field_result f -> field_result x -> field_result (f <*> x).
Proof.
  destruct f as [g|e1], x as [a|e2]; simpl; auto.
  intros [Hn1 H1] [Hn2 H2]. split.
  - destruct e1; [congruence | discriminate].
  - apply Forall_app. auto.
Qed.

Lemma field_result_at_loc {A : Type} l (r : result A) :
  field_result r -> field_result (at_loc l r).
Proof.
  destruct r as [a|e]; simpl; auto.
  intros [Hn H]. split.
  - destruct e; [congruence | discriminate].
  - apply Forall_map. exact H.
Qed.

Lemma field_result_fail {A : Type} t :
  field_kind t = true -> field_result (@fail A t).
Proof.
  intros H. simpl. split; [discriminate|]. now repeat constructor.
Qed.

Lemma field_result_str lo hi s : field_result (str_constrained lo hi s).
Proof.
  unfold str_constrained.
  destruct lo, hi;
    repeat match goal with
      | |- context [if ?c then _ else _] => destruct c
      end;
    try exact I; now apply field_result_fail.
Qed.

Lemma field_result_int lo hi v : field_result (int_constrained lo hi v).
Proof.
  unfold int_constrained.
  repeat match goal with
    | |- context [if ?c then _ else _] => destruct c
    end;
    try exact I; now apply field_result_fail.
Qed.

Lemma field_result_float lo hi v : field_result (float_constrained lo hi v).
Proof.
  unfold float_constrained.
  repeat match goal with
    | |- context [if ?c then _ else _] => destruct c
    end;
    try exact I; now apply field_result_fail.
Qed.

Lemma field_result_required {A B : Type} field (validator : A -> result B) v :
  (forall a, field_result (validator a)) ->
  field_result (required field validator v).
Proof.
  intros H. unfold required. apply field_result_at_loc.
  destruct v; [apply H | now apply field_result_fail].
Qed.

Lemma field_result_defaulted {A : Type} field (d : A) validator v :
  (forall a, field_result (validator a)) ->
  field_result (defaulted field d validator v).
Proof.
  intros H. unfold defaulted. apply field_result_at_loc.
  destruct v; [apply H | exact I].
Qed.

Lemma field_result_optional {A : Type} field (validator : A -> result A) v :
  (forall a, field_result (validator a)) ->
  field_result (optional field validator v).
Proof.
  intros H. unfold optional. apply field_result_at_loc.
  destruct v; [|exact I]. apply field_result_collect; [exact I | apply H].
Qed.

Ltac field_results :=
  repeat first
    [ exact I
    | apply field_result_collect
    | apply field_result_required; intros ?
    | apply field_result_defaulted; intros ?
    | apply field_result_optional; intros ?
    | apply field_result_str
    | apply field_result_int
    | apply field_result_float ].

Lemma field_result_station kw : field_result (space_station.validate kw).
Proof. unfold space_station.validate. field_results. Qed.

Lemma field_result_contact kw :
  field_result (alien_contact.validate_fields kw).
Proof. unfold alien_contact.validate_fields. field_results. Qed.

Lemma field_result_member kw : field_result (space_crew.validate_member kw).
Proof. unfold space_crew.validate_member. field_results. Qed.

Lemma field_result_items {A B : Type} (item : A -> result B) i l :
  (forall a, field_result (item a)) ->
  field_result (space_crew.validate_items item i l).
Proof.
  intros H. revert i. induction l as [|x xs IH]; intros i; [exact I|].
  cbn [space_crew.validate_items].
  repeat apply field_result_collect; auto.
  - exact I.
  - now apply field_result_at_loc.
Qed.

Lemma field_result_list {A B : Type} lo hi (item : A -> result B) l :
  (forall a, field_result (item a)) ->
  field_result (space_crew.list_constrained lo hi item l).
Proof.
  intros H. unfold space_crew.list_constrained.
  destruct (hi <? Z.of_nat (length l)); [now apply field_result_fail|].
  pose proof (field_result_items item 0 l H) as Hi.
  destruct (space_crew.validate_items item 0 l) as [out|report];
    [|exact Hi].
  destruct (Z.of_nat (length out) <? lo);
    [now apply field_result_fail | exact I].
Qed.

Lemma field_result_mission kw :
  field_result (space_crew.validate_fields kw).
Proof.
  unfold space_crew.validate_fields. field_results.
  apply field_result_list, field_result_member.
Qed.

Lemma field_result_wrap {A : Type} (tag : A -> record) (r : result A) :
  field_result r -> field_result (wrap tag r).
Proof. now destruct r. Qed.

Lemma field_result_validate_fields raw : field_result (validate_fields raw).
Proof.
  destruct raw; simpl; apply field_result_wrap;
    auto using field_result_station, field_result_contact,
      field_result_member, field_result_mission.
Qed.

Lemma reported_paths_nonempty raw p : In p (reported raw) -> p <> [].
Proof.
  intros H.
  assert (Hk : exists k q, p = k :: q).
  { destruct raw; simpl in H; apply in_under in H;
      destruct H as (k & q & -> & _); now exists k, q. }
  destruct Hk as (k & q & ->). discriminate.
Qed.

Lemma validate_after_fields raw self :
  validate_fields raw = Ok self ->
  validate raw =
  match violated_rules self with
  | [] => Ok self
  | msg :: _ => fail (value_error msg)
  end.
Proof.
  destruct raw as [kw|kw|kw|kw]; cbn [validate_fields validate]; intros H;
    apply wrap_ok in H; destruct H as (s & Hf & ->);
    cbn [violated_rules].
  - now rewrite Hf.
  - rewrite (contact_validate_fired kw s Hf).
    now destruct (fired alien_contact.rules s).
  - now rewrite Hf.
  - rewrite (mission_validate_fired kw s Hf).
    now destruct (fired space_crew.rules s).
Qed.

(** X7: a refusal is of one of two shapes. Either some field check failed:
    the report is then not empty and holds entries of field checks only,
    each located at a field, and no validator statement has run. Or every
    field check passed and the report is the single [value_error] of the
    first validator statement that fires, located at the instance itself. *)
Theorem refusal_shape
  (raw : raw_input) (report : list violation)
  (H : validate raw = Error report) :
  (validate_fields raw = Error report
   /\ report <> []
   /\ Forall (fun v => field_kind (v_type v) = true /\ v_loc v <> [])
        report)
  \/ (exists self msg rest,
        validate_fields raw = Ok self
        /\ violated_rules self = msg :: rest
        /\ report = [ {| v_loc := []; v_type := value_error msg |} ]).
Proof.
  pose proof (field_result_validate_fields raw) as Hwf.
  pose proof (validate_fields_locs raw) as Hlocs.
  destruct (validate_fields raw) as [self|report'] eqn:E.
  - right. rewrite (validate_after_fields raw self E) in H.
    destruct (violated_rules self) as [|msg rest] eqn:Hr; [discriminate|].
    exists self, msg, rest. split; [reflexivity|]. split; [exact Hr|].
    unfold fail in H. now inversion H.
  - left. rewrite (validate_field_errors raw report' E) in H.
    inversion H; subst report'. destruct Hwf as [Hne Hall].
    repeat split; auto.
    unfold locs in Hlocs. cbn [errors_of] in Hlocs.
    apply Forall_forall. intros v Hv. split.
    + eapply Forall_forall in Hall; eauto.
    + apply (reported_paths_nonempty raw). rewrite <- Hlocs.
      now apply in_map.
Qed.

Lemma refusal_shape_witness :
  validate_fields (MissionInput mission_two_faults)
  <> Error [ {| v_loc := [];
                v_type := value_error
                  "Mission must have at least one Captain or Commander" |} ]
  /\ exists self msg rest,
       validate_fields (MissionInput mission_two_faults) = Ok self
       /\ violated_rules self = msg :: rest.
Proof.
  split; [discriminate|].
  destruct (refusal_shape (MissionInput mission_two_faults) _ eq_refl)
    as [(Hf & _)|(self & msg & rest & Hf & Hr & _)].
  - discriminate Hf.
  - now exists self, msg, rest.
Defined.

(** X8: the field checks pass exactly when no field offends. As soon as
    one does, the construction is refused and the locations of the report
    are the offending fields that are looked into, in order: all of them
    when the crew list has at most 12 elements, and otherwise all but the
    fields of the elements of the crew. A single offending field always
    gives a single entry, located at that field. *)
Theorem fields_pass_iff_none_offends (raw : raw_input) :
  ((exists self, validate_fields raw = Ok self) <-> offending raw = [])
  /\ (offending raw <> [] ->
      exists report,
        validate raw = Error report
        /\ map v_loc report = filter (examined raw) (offending raw)
        /\ (crew_within_max raw = true ->
            map v_loc report = offending raw))
  /\ (forall p, offending raw = [p] ->
      exists t, validate raw = Error [ {| v_loc := p; v_type := t |} ]).
Proof.
  pose proof (field_result_validate_fields raw) as Hwf.
  pose proof (validate_fields_locs raw) as Hlocs.
  unfold locs in Hlocs.
  destruct (validate_fields raw) as [self|report] eqn:E;
    cbn [errors_of map] in Hlocs.
  - symmetry in Hlocs. apply reported_nil_iff in Hlocs. rewrite Hlocs.
    split; [|split].
    + split; [reflexivity | intros _; now exists self].
    + intros Hne. now contradiction Hne.
    + discriminate.
  - destruct Hwf as [Hne _].
    assert (Hrep : reported raw <> []).
    { intros Hnil. rewrite Hnil in Hlocs.
      apply map_eq_nil in Hlocs. contradiction. }
    split; [|split].
    + split.
      * intros (self & Hs). discriminate.
      * intros Hnil. apply reported_nil_iff in Hnil. contradiction.
    + intros _. exists report. split; [now apply validate_field_errors|].
      split; [rewrite Hlocs; apply reported_examined|].
      intros Hmax. now rewrite <- (reported_within_max raw Hmax).
    + intros p Hp.
      assert (Hone : reported raw = [p]).
      { rewrite reported_examined in *. rewrite Hp in *. cbn [filter] in *.
        destruct (examined raw p); [reflexivity | contradiction]. }
      rewrite Hone in Hlocs.
      destruct report as [|[l t] [|v rest]]; try discriminate.
      cbn in Hlocs. inversion Hlocs; subst. exists t.
      now apply validate_field_errors.
Qed.

(** ** The validator statements, one by one *)

Lemma not_prefix (p s : string) :
  (forall rest, s <> (p ++ rest)%string) -> String.prefix p s = false.
Proof.
  intros H. destruct (String.prefix p s) eqn:E; [|reflexivity].
  apply prefix_app in E. destruct E as (rest & ->).
  now contradiction (H rest).
Qed.

(** X9: an identifier without its prefix decides the outcome alone. A
    contact report that passes the field checks and whose identifier does
    not start with "AC", and a mission that passes them and whose
    identifier does not start with "M", are refused with the single entry
    of the prefix statement, whatever their other values. *)
Theorem missing_prefix_refused :
  (forall kw c,
     alien_contact.validate_fields kw = Ok c ->
     (forall rest, alien_contact.contact_id c <> ("AC" ++ rest)%string) ->
     alien_contact.validate kw
     = Error [ {| v_loc := [];
                  v_type := value_error
                    "Contact ID must start with 'AC' (Alien Contact)" |} ])
  /\ (forall kw m,
        space_crew.validate_fields kw = Ok m ->
        (forall rest, space_crew.mission_id m <> ("M" ++ rest)%string) ->
        space_crew.validate kw
        = Error [ {| v_loc := [];
                     v_type := value_error
                       "Mission ID must start with 'M'" |} ]).
Proof.
  split.
  - intros kw c Hf Hp. rewrite (contact_validate_fired kw c Hf).
    unfold fired, alien_contact.rules. cbn [filter].
    cbn [fires alien_contact.prefix_rule]. unfold alien_contact.startswith.
    rewrite (not_prefix _ _ Hp). reflexivity.
  - intros kw m Hf Hp. rewrite (mission_validate_fired kw m Hf).
    unfold fired, space_crew.rules. cbn [filter].
    cbn [fires space_crew.prefix_rule]. unfold space_crew.startswith.
    rewrite (not_prefix _ _ Hp). reflexivity.
Qed.

(** X10: a mission that passes the field checks, whose identifier starts
    with "M" and whose crew holds neither a captain nor a commander, is
    refused with the single entry "Mission must have at least one Captain
    or Commander", whatever its duration and the experience or activity of
    its crew. *)
Theorem mission_without_leader_refused
  (kw : space_crew.Kwargs) (m : space_crew.SpaceMission)
  (Hfields : space_crew.validate_fields kw = Ok m)
  (Hprefix : exists rest, space_crew.mission_id m = ("M" ++ rest)%string)
  (Hnone : forall member,
      In member (space_crew.crew m) ->
      space_crew.rank member <> space_crew.captain
      /\ space_crew.rank member <> space_crew.commander) :
  space_crew.validate kw
  = Error [ {| v_loc := [];
               v_type := value_error
                 "Mission must have at least one Captain or Commander" |} ].
Proof.
  rewrite (mission_validate_fired kw m Hfields).
  unfold fired, space_crew.rules. cbn [filter].
  cbn [fires space_crew.prefix_rule space_crew.leader_rule].
  unfold space_crew.startswith.
  rewrite (proj2 (prefix_app _ _) Hprefix). cbn [negb].
  destruct (existsb space_crew.is_leader (space_crew.crew m)) eqn:E;
    [|reflexivity].
  apply has_leader_iff in E. destruct E as (member & Hin & Hr).
  destruct (Hnone member Hin) as [H1 H2]. tauto.
Qed.

Lemma mission_without_leader_refused_witness :
  space_crew.validate mission_two_faults
  = Error [ {| v_loc := [];
               v_type := value_error
                 "Mission must have at least one Captain or Commander" |} ].
Proof.
  apply (mission_without_leader_refused mission_two_faults _ eq_refl).
  - now exists "2026_ERR".
  - cbn. intros member [<-|[<-|[]]]; split; discriminate.
Defined.

(** X11: the statement on strong signals. For a contact report that
    passes the field checks and on which the three earlier statements do
    not fire: with a signal strictly above 7.0 and a received message that
    is absent or empty, the report is refused with the single entry
    "Strong signals (> 7.0) should include a received message"; with a
    signal of 7.0 or less it is accepted whatever the message. *)
Theorem strong_signal_needs_message
  (kw : alien_contact.Kwargs) (c : alien_contact.AlienContact)
  (Hfields : alien_contact.validate_fields kw = Ok c)
  (H1 : fires alien_contact.prefix_rule c = false)
  (H2 : fires alien_contact.physical_rule c = false)
  (H3 : fires alien_contact.telepathic_rule c = false) :
  ((7 < alien_contact.signal_strength c)%Q ->
   alien_contact.message_received c = None
   \/ alien_contact.message_received c = Some EmptyString ->
   alien_contact.validate kw
   = Error [ {| v_loc := [];
                v_type := value_error
                  "Strong signals (> 7.0) should include a received message"
             |} ])
  /\ ((alien_contact.signal_strength c <= 7)%Q ->
      alien_contact.validate kw = Ok c).
Proof.
  rewrite (contact_validate_fired kw c Hfields).
  unfold fired, alien_contact.rules. cbn [filter]. rewrite H1, H2, H3.
  cbn [fires alien_contact.signal_rule]. split.
  - intros Hs Hm. apply Qlt_bool_true_iff in Hs. rewrite Hs.
    destruct Hm as [-> | ->]; reflexivity.
  - intros Hs. apply Qlt_bool_false_iff in Hs. rewrite Hs. reflexivity.
Qed.

Lemma strong_signal_needs_message_witness :
  alien_contact.validate contact_strong_silent
  = Error [ {| v_loc := [];
               v_type := value_error
                 "Strong signals (> 7.0) should include a received message"
            |} ].
Proof.
  refine (proj1 (strong_signal_needs_message contact_strong_silent _
                   eq_refl eq_refl eq_refl eq_refl) _ _).
  - reflexivity.
  - right. reflexivity.
Defined.

(** ** Fields left out *)

Lemma in_errors_is_error {A : Type} (r : result A) v :
  In v (errors_of r) -> r = Error (errors_of r).
Proof. destruct r; simpl; [contradiction | reflexivity]. Qed.

Lemma errors_of_wrap {A : Type} (tag : A -> record) (r : result A) :
  errors_of (wrap tag r) = errors_of r.
Proof. now destruct r. Qed.

Lemma missing_reported {A B : Type} field (validator : A -> result B) v :
  absent v = true ->
  errors_of (required field validator v)
  = [ {| v_loc := [Key field]; v_type := missing |} ].
Proof. destruct v; [discriminate | reflexivity]. Qed.

Ltac find_missing :=
  repeat rewrite errors_of_collect;
  repeat rewrite in_app_iff;
  match goal with
  | H : absent _ = true |- _ => rewrite (missing_reported _ _ _ H)
  end;
  cbn [In]; tauto.

(** X12: a field declared without a default that the input leaves out is
    reported: the construction is refused and its report holds an entry of
    kind [missing] located at that field, for each of the four classes. *)
Theorem missing_required_field_reported
  (raw : raw_input) (field : string)
  (H : In (field, true) (required_fields raw)) :
  exists report,
    validate raw = Error report
    /\ In {| v_loc := [Key field]; v_type := missing |} report.
Proof.
  assert (Hin : In {| v_loc := [Key field]; v_type := missing |}
                  (errors_of (validate_fields raw))).
  { destruct raw as [kw|kw|kw|kw]; cbn [required_fields In] in H;
      cbn [validate_fields]; rewrite errors_of_wrap;
      [ unfold space_station.validate
      | unfold alien_contact.validate_fields
      | unfold space_crew.validate_member
      | unfold space_crew.validate_fields ];
      repeat match goal with
        | H : _ \/ _ |- _ => destruct H as [H|H]
        | H : False |- _ => contradiction
        end;
      inversion H; subst; clear H; find_missing. }
  exists (errors_of (validate_fields raw)). split; [|exact Hin].
  apply validate_field_errors. eapply in_errors_is_error; eauto.
Qed.

Lemma missing_required_field_reported_witness :
  exists report,
    validate (MissionInput mission_no_crew) = Error report
    /\ In {| v_loc := [Key "crew"]; v_type := missing |} report.
Proof.
  apply missing_required_field_reported.
  cbn. do 5 right. left. reflexivity.
Defined.

(** ** The crew list *)

Ltac mission_kw_projections :=
  cbn [space_crew.with_crew
       space_crew.kw_mission_id space_crew.kw_mission_name
       space_crew.kw_destination space_crew.kw_launch_date
       space_crew.kw_duration_days space_crew.kw_crew
       space_crew.kw_mission_status space_crew.kw_budget_millions].

Lemma mission_crew_refused kw m v t :
  space_crew.validate_fields kw = Ok m ->
  required "crew"
    (space_crew.list_constrained 1 12 space_crew.validate_member) v
  = Error [ {| v_loc := [Key "crew"]; v_type := t |} ] ->
  space_crew.validate (space_crew.with_crew v kw)
  = Error [ {| v_loc := [Key "crew"]; v_type := t |} ].
Proof.
  intros Hf Hc. unfold space_crew.validate, space_crew.validate_fields in *.
  invert_collect. subst. mission_kw_projections. rewrite Hc.
  repeat match goal with
         | E : _ = Ok _ |- _ => rewrite E; clear E
         end.
  reflexivity.
Qed.

(** X13: the size of the crew. For a mission whose field checks pass,
    giving an empty crew instead gets the single entry [too_short] at
    [crew], giving a crew of more than 12 members, each acceptable on its
    own, gets the single entry [too_long] at [crew], and giving none gets
    [missing]; no validator statement runs in these cases. *)
Theorem crew_size_checked
  (kw : space_crew.Kwargs) (m : space_crew.SpaceMission)
  (Hfields : space_crew.validate_fields kw = Ok m) :
  space_crew.validate (space_crew.with_crew (Some []) kw)
  = Error [ {| v_loc := [Key "crew"]; v_type := too_short |} ]
  /\ (forall l out,
        Forall2 (fun x y => space_crew.validate_member x = Ok y) l out ->
        (12 < length l)%nat ->
        space_crew.validate (space_crew.with_crew (Some l) kw)
        = Error [ {| v_loc := [Key "crew"]; v_type := too_long |} ])
  /\ space_crew.validate (space_crew.with_crew None kw)
     = Error [ {| v_loc := [Key "crew"]; v_type := missing |} ].
Proof.
  split; [|split].
  - apply (mission_crew_refused kw m _ _ Hfields). reflexivity.
  - intros l out _ Hlen. apply (mission_crew_refused kw m _ _ Hfields).
    unfold required, space_crew.list_constrained.
    destruct (Z.ltb_spec 12 (Z.of_nat (length l))); [reflexivity | lia].
  - apply (mission_crew_refused kw m _ _ Hfields). reflexivity.
Qed.

Lemma crew_size_checked_witness :
  space_crew.validate (space_crew.with_crew (Some []) mission_ok)
  = Error [ {| v_loc := [Key "crew"]; v_type := too_short |} ].
Proof.
  apply (proj1 (crew_size_checked mission_ok _ eq_refl)).
Defined.

Lemma member_errors_in_items {A B : Type} (item : A -> result B)
  l i x r v j :
  nth_error l i = Some x ->
  item x = Error r ->
  In v r ->
  In {| v_loc := Idx (j + i) :: v_loc v; v_type := v_type v |}
    (errors_of (space_crew.validate_items item j l)).
Proof.
  revert i j. induction l as [|y ys IH]; intros i j Hn Hx Hv.
  - destruct i; discriminate.
  - cbn [space_crew.validate_items]. rewrite !errors_of_collect.
    apply in_or_app. destruct i as [|i]; cbn [nth_error] in Hn.
    + left. apply in_or_app. right. inversion Hn; subst y.
      rewrite Hx. cbn [at_loc errors_of]. rewrite Nat.add_0_r.
      now apply (in_map (with_outer_location (Idx j))).
    + right. replace (j + S i)%nat with (S j + i)%nat by lia.
      now apply IH.
Qed.

(** X14: a failure inside a crew element surfaces at its place. When the
    crew has at most 12 elements and element [i] on its own is refused,
    the mission is refused and its report holds every entry of that
    element, located under [crew], then [i], then the location the entry
    has in the element. *)
Theorem member_errors_surface
  (kw : space_crew.Kwargs) (l : list space_crew.MemberKwargs) (i : nat)
  (mkw : space_crew.MemberKwargs) (r : list violation)
  (Hcrew : space_crew.kw_crew kw = Some l)
  (Hsize : (length l <= 12)%nat)
  (Hi : nth_error l i = Some mkw)
  (Hr : space_crew.validate_member mkw = Error r) :
  exists report,
    space_crew.validate kw = Error report
    /\ forall v, In v r ->
         In {| v_loc := Key "crew" :: Idx i :: v_loc v; v_type := v_type v |}
           report.
Proof.
  assert (Hitems : forall v, In v r ->
            In {| v_loc := Idx i :: v_loc v; v_type := v_type v |}
              (errors_of
                 (space_crew.list_constrained 1 12
                    space_crew.validate_member l))).
  { intros v Hv.
    pose proof (member_errors_in_items space_crew.validate_member
                  l i mkw r v 0%nat Hi Hr Hv) as Hin.
    cbn [Nat.add] in Hin. unfold space_crew.list_constrained.
    destruct (Z.ltb_spec 12 (Z.of_nat (length l))); [lia|].
    destruct (space_crew.validate_items space_crew.validate_member 0 l);
      [contradiction | exact Hin]. }
  assert (Hfields : forall v, In v r ->
            In {| v_loc := Key "crew" :: Idx i :: v_loc v;
                  v_type := v_type v |}
              (errors_of (space_crew.validate_fields kw))).
  { intros v Hv. specialize (Hitems v Hv).
    unfold space_crew.validate_fields. rewrite !errors_of_collect.
    rewrite !in_app_iff. left. left. right.
    unfold required. rewrite Hcrew.
    destruct (space_crew.list_constrained 1 12 space_crew.validate_member l)
      as [out|e]; [contradiction|].
    cbn [at_loc errors_of] in *.
    now apply (in_map (with_outer_location (Key "crew"))) in Hitems. }
  exists (errors_of (space_crew.validate_fields kw)).
  split; [|exact Hfields].
  destruct r as [|v0 r'].
  - exfalso.
    pose proof (field_result_member mkw) as Hwf. rewrite Hr in Hwf.
    destruct Hwf as [Hne _]. now apply Hne.
  - pose proof (Hfields v0 (or_introl eq_refl)) as Hin.
    apply in_errors_is_error in Hin. unfold space_crew.validate.
    rewrite Hin. reflexivity.
Qed.

Lemma member_errors_surface_witness :
  exists report,
    space_crew.validate mission_young_member = Error report
    /\ In {| v_loc := [Key "crew"; Idx 1; Key "age"];
             v_type := greater_than_equal |} report.
Proof.
  destruct (member_errors_surface mission_young_member _ 1 _ _
              eq_refl (le_S _ _ (le_S _ _ (le_S _ _ (le_S _ _ (le_S _ _
                (le_S _ _ (le_S _ _ (le_S _ _ (le_S _ _ (le_S _ _
                (le_n 2)))))))))))
              eq_refl eq_refl)
    as (report & Hv & Hin).
  exists report. split; [exact Hv|].
  apply (Hin {| v_loc := [Key "age"]; v_type := greater_than_equal |}).
  left. reflexivity.
Defined.

(** ** What the printing functions write *)





(** ** Which bound was crossed *)

Ltac station_kw_projections :=
  cbn [space_station.with_crew_size space_station.with_power_level
       space_station.with_station_id
       space_station.kw_station_id
       space_station.kw_name space_station.kw_crew_size
       space_station.kw_power_level space_station.kw_oxygen_level
       space_station.kw_last_maintenance space_station.kw_is_operational
       space_station.kw_notes].

(** X18: the kind of the entry tells which bound was crossed. For a
    station that is accepted, replacing one value by one out of range is
    refused with a single entry at that field: [greater_than_equal] when
    [crew_size] is below 1 or [power_level] below 0.0, [less_than_equal]
    when [crew_size] is above 20 or [power_level] above 100.0,
    [string_too_short] when [station_id] has fewer than 3 characters and
    [string_too_long] when it has more than 10. *)
Theorem station_crossed_bound_kind
  (kw : space_station.Kwargs) (st : space_station.SpaceStation)
  (H : space_station.validate kw = Ok st) :
  (forall n, n < 1 ->
     space_station.validate (space_station.with_crew_size (Some n) kw)
     = Error [ {| v_loc := [Key "crew_size"];
                  v_type := greater_than_equal |} ])
  /\ (forall n, 20 < n ->
        space_station.validate (space_station.with_crew_size (Some n) kw)
        = Error [ {| v_loc := [Key "crew_size"];
                     v_type := less_than_equal |} ])
  /\ (forall q, (q < 0)%Q ->
        space_station.validate (space_station.with_power_level (Some q) kw)
        = Error [ {| v_loc := [Key "power_level"];
                     v_type := greater_than_equal |} ])
  /\ (forall q, (100 < q)%Q ->
        space_station.validate (space_station.with_power_level (Some q) kw)
        = Error [ {| v_loc := [Key "power_level"];
                     v_type := less_than_equal |} ])
  /\ (forall s, len s < 3 ->
        space_station.validate (space_station.with_station_id (Some s) kw)
        = Error [ {| v_loc := [Key "station_id"];
                     v_type := string_too_short |} ])
  /\ (forall s, 10 < len s ->
        space_station.validate (space_station.with_station_id (Some s) kw)
        = Error [ {| v_loc := [Key "station_id"];
                     v_type := string_too_long |} ]).
Proof.
  unfold space_station.validate in *. invert_collect. subst.
  repeat split; intros v Hv; station_kw_projections;
    repeat match goal with
           | E : _ = Ok _ |- _ => rewrite E; clear E
           end;
    unfold required, int_constrained, float_constrained, str_constrained.
  - destruct (Z.ltb_spec v 1); [reflexivity | lia].
  - destruct (Z.ltb_spec v 1); [lia|].
    destruct (Z.ltb_spec 20 v); [reflexivity | lia].
  - apply Qlt_bool_true_iff in Hv. rewrite Hv. reflexivity.
  - assert (Hge : Qlt_bool v 0 = false).
    { apply Qlt_bool_false_iff. apply Qlt_le_weak.
      eapply Qlt_trans; [|exact Hv]. reflexivity. }
    apply Qlt_bool_true_iff in Hv. rewrite Hge, Hv. reflexivity.
  - destruct (Z.ltb_spec (len v) 3); [reflexivity | lia].
  - destruct (Z.ltb_spec (len v) 3); [lia|].
    destruct (Z.ltb_spec 10 (len v)); [reflexivity | lia].
Qed.

Lemma station_crossed_bound_kind_witness :
  space_station.validate (space_station.with_crew_size (Some 0) station_ok)
  = Error [ {| v_loc := [Key "crew_size"]; v_type := greater_than_equal |} ].
Proof.
  apply (proj1 (station_crossed_bound_kind station_ok _ eq_refl)).
  reflexivity.
Defined.
